(** * Sudoku solver of [src/Sudoko.js]: a shallow embedding of [isValid],
    [findEmptyCell] and the backtracking search [solveSudoku]. *)

From stdpp Require Import base list strings.
From Stdlib Require Import Permutation.

(** ** Data model *)

(** The solver works on [numberBoard], an array of 9 arrays of numbers,
    0 marking an empty cell. *)
Abbreviation grid := (list (list nat)).

(** [board[i][j]]: [None] stands for JavaScript's [undefined] (an index
    outside the arrays); it is never [=== num] for a number [num]. *)
Definition cell (board : grid) (i j : nat) : option nat :=
  board !! i ≫= λ r, r !! j.

(** [board[i][j] = v] on an existing cell. *)
Definition set (board : grid) (i j v : nat) : grid :=
  alter (λ r, <[j := v]> r) i board.

(** ** [isValid(board, row, col, num)], lines 10-32 *)
Definition isValid (board : grid) (row col num : nat) : bool :=
  (* Check row *)
  forallb (λ j, negb (bool_decide (cell board row j = Some num))) (seq 0 9) &&
  (* Check column *)
  forallb (λ i, negb (bool_decide (cell board i col = Some num))) (seq 0 9) &&
  (* Check 3x3 box *)
  (let boxRow := row `div` 3 * 3 in
   let boxCol := col `div` 3 * 3 in
   forallb (λ i,
     forallb (λ j, negb (bool_decide (cell board i j = Some num)))
       (seq boxCol 3))
     (seq boxRow 3)).

(** ** [findEmptyCell(board)], lines 35-44 *)
Fixpoint findEmptyCol (board : grid) (i : nat) (js : list nat)
    : option (nat * nat) :=
  match js with
  | [] => None
  | j :: js' =>
      if bool_decide (cell board i j = Some 0) then Some (i, j)
      else findEmptyCol board i js'
  end.

Fixpoint findEmptyRow (board : grid) (is : list nat) : option (nat * nat) :=
  match is with
  | [] => None
  | i :: is' =>
      match findEmptyCol board i (seq 0 9) with
      | Some p => Some p
      | None => findEmptyRow board is'
      end
  end.

Definition findEmptyCell (board : grid) : option (nat * nat) :=
  findEmptyRow board (seq 0 9).

(** ** [solveSudoku(board)], lines 47-66

    The board is mutated in place; we pass it as explicit state.  The state
    also carries a ghost [history]: the board as it stands after each
    assignment [board[row][col] = ...] performed by the search, newest
    first.  It does not influence the search. *)
Record St := mkSt { board : grid; history : list grid }.

(** [board[row][col] = v], recorded in the history. *)
Definition assign (s : St) (row col v : nat) : St :=
  let b := set (board s) row col v in mkSt b (b :: history s).

(** The loop [for (let num = 1; num <= 9; num++)] of lines 53-63, over the
    remaining candidates [nums], with [rec] the recursive call. *)
Fixpoint tryNums (rec : St → option (bool * St)) (row col : nat)
    (nums : list nat) (s : St) : option (bool * St) :=
  match nums with
  | [] => Some (false, s)
  | num :: rest =>
      if isValid (board s) row col num then
        match rec (assign s row col num) with
        | Some (true, s') => Some (true, s')
        | Some (false, s') => tryNums rec row col rest (assign s' row col 0)
        | None => None
        end
      else tryNums rec row col rest s
  end.

(** The recursion, cut off after [fuel] nested calls ([None]). *)
Fixpoint solve_fuel (fuel : nat) (s : St) : option (bool * St) :=
  match fuel with
  | O => None
  | S f =>
      match findEmptyCell (board s) with
      | None => Some (true, s)
      | Some (row, col) => tryNums (solve_fuel f) row col (seq 1 9) s
      end
  end.

(** The number of cells holding 0. *)
Definition cells : list (nat * nat) := list_prod (seq 0 9) (seq 0 9).

Definition count_zeros (board : grid) : nat :=
  length (filter (λ p, cell board p.1 p.2 = Some 0) cells).

(** [solveSudoku(board)]: one more nested call than there are empty cells
    (each level fills one), see [solveSudoku_terminates]. *)
Definition solveSudoku (b : grid) : option (bool * St) :=
  solve_fuel (S (count_zeros b)) (mkSt b []).

Definition example_grid : grid :=
  [[5;3;0;0;7;0;0;0;0];
   [6;0;0;1;9;5;0;0;0];
   [0;9;8;0;0;0;0;6;0];
   [8;0;0;0;6;0;0;0;3];
   [4;0;0;8;0;3;0;0;1];
   [7;0;0;0;2;0;0;0;6];
   [0;6;0;0;0;0;2;8;0];
   [0;0;0;4;1;9;0;0;5];
   [0;0;0;0;8;0;0;7;9]].

Definition example_solution : grid :=
  [[5;3;4;6;7;8;9;1;2];
   [6;7;2;1;9;5;3;4;8];
   [1;9;8;3;4;2;5;6;7];
   [8;5;9;7;6;1;4;2;3];
   [4;2;6;8;5;3;7;9;1];
   [7;1;3;9;2;4;8;5;6];
   [9;6;1;5;3;7;2;8;4];
   [2;8;7;4;1;9;6;3;5];
   [3;4;5;2;8;6;1;7;9]].

Definition result_board (r : option (bool * St)) : option (bool * grid) :=
  (λ '(ok, s), (ok, board s)) <$> r.

(** ** Properties of the grid used in the statements *)

(** A well-formed board: 9 rows of 9 numbers in [0, 9]. *)
Definition wf (b : grid) : Prop :=
  length b = 9 ∧ Forall (λ r, length r = 9 ∧ Forall (λ v, v ≤ 9) r) b.

Definition no_zeros (b : grid) : Prop :=
  ∀ i j, i < 9 → j < 9 → cell b i j ≠ Some 0.

Definition same_unit (i j i' j' : nat) : Prop :=
  i = i' ∨ j = j' ∨ (i `div` 3 = i' `div` 3 ∧ j `div` 3 = j' `div` 3).

(** Two different cells of a row, column or box never hold the same
    non-zero digit. *)
Definition consistent (b : grid) : Prop :=
  ∀ i j i' j' v, i < 9 → j < 9 → i' < 9 → j' < 9 → (i, j) ≠ (i', j') →
  same_unit i j i' j' → cell b i j = Some v → v ≠ 0 → cell b i' j' ≠ Some v.

(** Every non-zero cell of [b0] holds the same value in [b]. *)
Definition keeps_givens (b0 b : grid) : Prop :=
  ∀ i j v, cell b0 i j = Some v → v ≠ 0 → cell b i j = Some v.

Definition row_cells (b : grid) (i : nat) : list (option nat) :=
  map (λ j, cell b i j) (seq 0 9).
Definition col_cells (b : grid) (j : nat) : list (option nat) :=
  map (λ i, cell b i j) (seq 0 9).
Definition box_coords (k : nat) : list (nat * nat) :=
  list_prod (seq (k `div` 3 * 3) 3) (seq (k `mod` 3 * 3) 3).
Definition box_cells (b : grid) (k : nat) : list (option nat) :=
  map (λ p, cell b p.1 p.2) (box_coords k).

Definition digits : list (option nat) := map Some (seq 1 9).

(** A solved grid: no zeros, every row, column and box a permutation of
    1-9. *)
Definition solved (b : grid) : Prop :=
  wf b ∧ no_zeros b ∧
  ∀ k, k < 9 →
    Permutation (row_cells b k) digits ∧ Permutation (col_cells b k) digits ∧
    Permutation (box_cells b k) digits.

(** A valid completion [h] of the puzzle [b]. *)
Definition completion (b h : grid) : Prop :=
  wf h ∧ no_zeros h ∧ consistent h ∧ keeps_givens b h.

(** [s'] comes after [s], and every board recorded in between satisfies
    [Q]. *)
Definition history_grows (Q : grid → Prop) (s s' : St) : Prop :=
  ∃ new, history s' = new ++ history s ∧ Forall Q new.

(** Invariant behind C1: well-formed and consistent. *)
Definition wf_consistent (b : grid) : Prop := wf b ∧ consistent b.

(** Two cells of one unit hold the same digit only when both are givens of
    [b0] holding it. *)
Definition conflicts_given (b0 b : grid) : Prop :=
  ∀ i j i' j' v, i < 9 → j < 9 → i' < 9 → j' < 9 → (i, j) ≠ (i', j') →
  same_unit i j i' j' → cell b i j = Some v → v ≠ 0 → cell b i' j' = Some v →
  cell b0 i j = Some v ∧ cell b0 i' j' = Some v.

(** Invariant of the search started on [b0]. *)
Definition search_inv (b0 b : grid) : Prop :=
  wf b ∧ keeps_givens b0 b ∧ conflicts_given b0 b.

(** ** Forced cells

    A proof device for uniqueness (not part of the program): fill every
    empty cell that [isValid] accepts exactly one digit for. *)
Definition candidates (b : grid) (i j : nat) : list nat :=
  filter (λ v, isValid b i j v = true) (seq 1 9).

Definition fill_single (b : grid) (p : nat * nat) : grid :=
  if bool_decide (cell b p.1 p.2 = Some 0) then
    match candidates b p.1 p.2 with
    | [v] => set b p.1 p.2 v
    | _ => b
    end
  else b.

Definition singles_pass (b : grid) : grid := foldl fill_single b cells.

Fixpoint propagate (n : nat) (b : grid) : grid :=
  match n with
  | O => b
  | S n => singles_pass (propagate n b)
  end.

(** ** Concrete boards *)

Global Instance same_unit_dec i j i' j' : Decision (same_unit i j i' j').
Proof. unfold same_unit. apply _. Defined.

Definition consistentb (b : grid) : bool :=
  forallb (λ p, forallb (λ q,
    bool_decide (p = q) || negb (bool_decide (same_unit p.1 p.2 q.1 q.2)) ||
    bool_decide (cell b p.1 p.2 = Some 0) ||
    negb (bool_decide (cell b p.1 p.2 = cell b q.1 q.2))) cells) cells.

(** Decides [conflicts_given b0 b] on 9x9 boards. *)
Definition conflicts_givenb (b0 b : grid) : bool :=
  forallb (λ p, forallb (λ q,
    bool_decide (p = q) || negb (bool_decide (same_unit p.1 p.2 q.1 q.2)) ||
    bool_decide (cell b p.1 p.2 = Some 0) ||
    negb (bool_decide (cell b p.1 p.2 = cell b q.1 q.2)) ||
    (bool_decide (cell b0 p.1 p.2 = cell b p.1 p.2) &&
     bool_decide (cell b0 q.1 q.2 = cell b p.1 p.2))) cells) cells.

(** The canonical solution with its last cell emptied. *)
Definition near_solution : grid := set example_solution 8 8 0.

(** [near_solution] with a second 5 in row 0. *)
Definition dup_accepted : grid := set near_solution 0 1 5.

(** [near_solution] whose last cell has no candidate left. *)
Definition dead_end : grid := set near_solution 8 0 9.

(** [example_solution] with (8,6), (8,7), (8,8) emptied and a 9 written
    at (8,0): row 8 lacks 1, 3 and 7, and 3 fits nowhere, so the search
    places 1 and 7 before undoing both. *)
Definition backtrack_grid : grid :=
  set (set (set (set example_solution 8 6 0) 8 7 0) 8 8 0) 8 0 9.

(** The writes of the search on [backtrack_grid], newest first: 1 at
    (8,6), 7 at (8,7), then both reset to 0. *)
Definition backtrack_writes : list grid :=
  [set (set (set (set backtrack_grid 8 6 1) 8 7 7) 8 7 0) 8 6 0;
   set (set (set backtrack_grid 8 6 1) 8 7 7) 8 7 0;
   set (set backtrack_grid 8 6 1) 8 7 7;
   set backtrack_grid 8 6 1].

(** The canonical solution with a second 5 in row 0: full but
    contradictory. *)
Definition conflict_full : grid := set example_solution 0 1 5.

(** Row 0 = [1,1,0,...,0], all other cells 0. *)
Definition dup_grid : grid := [1;1;0;0;0;0;0;0;0] :: repeat (repeat 0 9) 8.

(** * The component [SudokuSolver], lines 3-210

    The React state: [board], an array of nine row arrays of strings, and
    [isLoading].  Row arrays are objects shared by reference ([[...board]]
    copies only the outer array), so they live in a store [ui_heap] indexed
    by address, and [ui_board] is the outer array as the addresses of its
    rows. *)

(** JavaScript strings: sequences of UTF-16 code units. *)
Abbreviation jsstr := (list N).

Definition js_of_string (s : string) : jsstr :=
  map Ascii.N_of_ascii (String.list_ascii_of_string s).

(** [a < b] on strings (IsLessThan): the first differing code unit
    decides; a proper prefix comes first. *)
Fixpoint js_str_lt (a b : jsstr) : bool :=
  match a, b with
  | _, [] => false
  | [], _ :: _ => true
  | x :: a', y :: b' => if bool_decide (x = y) then js_str_lt a' b' else bool_decide (x < y)%N
  end.

(** [a <= b] is [!(b < a)]; [a >= b] is [!(a < b)]. *)
Definition js_str_le (a b : jsstr) : bool := negb (js_str_lt b a).
Definition js_str_ge (a b : jsstr) : bool := negb (js_str_lt a b).

(** The one-character string of a decimal digit: ['5'] is [str_digit 5]. *)
Definition str_digit (d : nat) : jsstr := [(48 + N.of_nat d)%N].

(** Numbers as [parseInt] returns them: [NaN], or a sign and an integer. *)
Inductive jsnum := NaN | Num (neg : bool) (n : nat).

(** StrWhiteSpaceChar: WhiteSpace and LineTerminator code units. *)
Definition js_space_units : list N :=
  [9; 10; 11; 12; 13; 32; 160; 5760; 8192; 8193; 8194; 8195; 8196; 8197; 8198; 8199;
   8200; 8201; 8202; 8232; 8233; 8239; 8287; 12288; 65279]%N.

Fixpoint trim_start (s : jsstr) : jsstr :=
  match s with
  | c :: s' => if bool_decide (c ∈ js_space_units) then trim_start s' else s
  | [] => []
  end.

(** Value of a digit of radix up to 36: 0-9, then a-z or A-Z. *)
Definition digit_value (c : N) : option nat :=
  if bool_decide (48 ≤ c ≤ 57)%N then Some (N.to_nat (c - 48))
  else if bool_decide (97 ≤ c ≤ 122)%N then Some (N.to_nat (c - 87))
  else if bool_decide (65 ≤ c ≤ 90)%N then Some (N.to_nat (c - 55))
  else None.

(** The longest prefix of radix-[R] digits. *)
Fixpoint radix_digits (R : nat) (s : jsstr) : list nat :=
  match s with
  | c :: s' =>
      match digit_value c with
      | Some d => if bool_decide (d < R) then d :: radix_digits R s' else []
      | None => []
      end
  | [] => []
  end.

Definition digits_to_nat (R : nat) (ds : list nat) : nat :=
  foldl (λ acc d, acc * R + d) 0 ds.

(** A leading [0x] or [0X] selects radix 16. *)
Definition strip_hex (s : jsstr) : nat * jsstr :=
  match s with
  | c :: x :: s' =>
      if bool_decide (c = 48 ∧ (x = 120 ∨ x = 88))%N then (16, s') else (10, s)
  | _ => (10, s)
  end.

(** [parseInt(string)] without radix.  The integer is kept exact: a
    Number would round it beyond 2^53, far above the values met here (the
    cells hold at most one digit, the solver writes digits 1-9). *)
Definition parseInt (str : jsstr) : jsnum :=
  let S0 := trim_start str in
  let neg := bool_decide (head S0 = Some 45%N) in
  let S1 := if bool_decide (head S0 = Some 45%N ∨ head S0 = Some 43%N) then tail S0 else S0 in
  let '(R, S2) := strip_hex S1 in
  match radix_digits R S2 with
  | [] => NaN
  | ds => Num neg (digits_to_nat R ds)
  end.

(** [n.toString()] for a non-negative integer: its decimal digits.  This
    is JavaScript's output below 10^21 only; from there it switches to
    exponential notation (["1e+21"]).  The solver only writes digits 1-9. *)
Fixpoint to_dec (fuel n : nat) (acc : jsstr) : jsstr :=
  match fuel with
  | O => acc
  | S f =>
      if bool_decide (n < 10) then (48 + N.of_nat n)%N :: acc
      else to_dec f (n `div` 10) ((48 + N.of_nat (n `mod` 10))%N :: acc)
  end.

Definition number_toString (n : nat) : jsstr := to_dec (S n) n [].

(** [cell === '' ? 0 : parseInt(cell)], line 85. *)
Definition cell_to_number (c : jsstr) : jsnum :=
  if bool_decide (c = []) then Num false 0 else parseInt c.

(** [numberBoard], lines 84-86. *)
Definition to_numberBoard (rows : list (list jsstr)) : list (list jsnum) :=
  map (map cell_to_number) rows.

(** The solver of this file takes boards of non-negative integers; [NaN]
    and signed values are outside it. *)
Definition number_as_nat (x : jsnum) : option nat :=
  match x with
  | Num false n => Some n
  | _ => None
  end.

Definition to_grid (nb : list (list jsnum)) : option grid :=
  mapM (mapM number_as_nat) nb.

(** [solvedBoard], lines 92-94. *)
Definition to_strings (b : grid) : list (list jsstr) := map (map number_toString) b.

Record UI := mkUI {
  ui_board : list nat;
  ui_heap : list (list jsstr);
  isLoading : bool;
  (** the callback scheduled by [setTimeout] in [handleSolve], with the
      [numberBoard] it closes over *)
  pending : option (list (list jsnum));
  (** the messages shown by [alert] *)
  alerts : list jsstr }.

(** The rows of [board], read through their addresses. *)
Definition rows_of (u : UI) : option (list (list jsstr)) :=
  mapM (λ l, ui_heap u !! l) (ui_board u).

(** [setBoard] with an array of newly created row arrays. *)
Definition setBoard_fresh (rows : list (list jsstr)) (u : UI) : UI :=
  mkUI (seq (length (ui_heap u)) (length rows)) (ui_heap u ++ rows)
    (isLoading u) (pending u) (alerts u).

(** [Array(9).fill().map(() => Array(9).fill(''))]: nine distinct rows. *)
Definition empty_rows : list (list jsstr) := replicate 9 (replicate 9 []).

(** The state after [useState], lines 4-7. *)
Definition initial_ui : UI := setBoard_fresh empty_rows (mkUI [] [] false None []).

(** The test of line 73: [value === '' || (value >= '1' && value <= '9')]. *)
Definition cell_input_ok (value : jsstr) : bool :=
  bool_decide (value = []) || (js_str_ge value (str_digit 1) && js_str_le value (str_digit 9)).

(** [handleCellChange(row, col, value)], lines 69-77.  [newBoard] is a new
    outer array holding the same row arrays, and [newBoard[row][col] =
    value] writes into the row array in the store.  [None]: an index
    outside the board; for [row] the assignment throws (TypeError on
    [undefined]), for [col] it would grow the row with holes, which string
    rows do not represent.  The handler is bound only to the inputs
    rendered at [(rowIndex, colIndex)] (lines 139-146), where neither
    happens. *)
Definition handleCellChange (row col : nat) (value : jsstr) (u : UI) : option UI :=
  let newBoard := ui_board u in
  if cell_input_ok value then
    match newBoard !! row with
    | Some l =>
        match ui_heap u !! l with
        | Some r =>
            if bool_decide (col < length r) then
              Some (mkUI newBoard (<[l := <[col := value]> r]> (ui_heap u))
                      (isLoading u) (pending u) (alerts u))
            else None
        | None => None
        end
    | None => None
    end
  else Some u.

(** [handleSolve()], lines 80-101: [setSolving(true)], [numberBoard], and the
    callback left pending for the timer. *)
Definition handleSolve (u : UI) : option UI :=
  match rows_of u with
  | Some rows => Some (mkUI (ui_board u) (ui_heap u) true (Some (to_numberBoard rows)) (alerts u))
  | None => None
  end.

Definition no_solution_msg : jsstr := js_of_string "No solution exists for this puzzle!".

(** The [setTimeout] callback, lines 89-100. *)
Definition solve_callback (numberBoard : list (list jsnum)) (u : UI) : option UI :=
  match to_grid numberBoard with
  | Some g =>
      match solveSudoku g with
      | Some (true, s) =>
          let u' := setBoard_fresh (to_strings (board s)) u in
          Some (mkUI (ui_board u') (ui_heap u') false None (alerts u'))
      | Some (false, _) =>
          Some (mkUI (ui_board u) (ui_heap u) false None (alerts u ++ [no_solution_msg]))
      | None => None
      end
  | None => None
  end.

(** [handleClear()], lines 104-106. *)
Definition handleClear (u : UI) : UI := setBoard_fresh empty_rows u.

(** The [example] of [loadExample()], lines 110-120. *)
Definition example_rows : list (list jsstr) :=
  let e : jsstr := [] in
  let d := str_digit in
  [[d 5; d 3; e; e; d 7; e; e; e; e];
   [d 6; e; e; d 1; d 9; d 5; e; e; e];
   [e; d 9; d 8; e; e; e; e; d 6; e];
   [d 8; e; e; e; d 6; e; e; e; d 3];
   [d 4; e; e; d 8; e; d 3; e; e; d 1];
   [d 7; e; e; e; d 2; e; e; e; d 6];
   [e; d 6; e; e; e; e; d 2; d 8; e];
   [e; e; e; d 4; d 1; d 9; e; e; d 5];
   [e; e; e; e; d 8; e; e; d 7; d 9]].

(** [loadExample()], lines 109-122: the literal builds new arrays at each
    call. *)
Definition loadExample (u : UI) : UI := setBoard_fresh example_rows u.

(** User events.  [CellInput row col value] is the [onChange] of the input
    at [(row, col)] with the new [e.target.value]. *)
Inductive event :=
  | CellInput (row col : nat) (value : jsstr)
  | SolveClick
  | ClearClick
  | ExampleClick
  | TimerFires.

(** An input is rendered at [(row, col)] for each cell of [board], lines
    139-146. *)
Definition rendered (u : UI) (row col : nat) : bool :=
  match rows_of u ≫= (λ rows, rows !! row) with
  | Some r => bool_decide (col < length r)
  | None => false
  end.

(** The handler run by an event.  The inputs and buttons are
    [disabled={isLoading}] (lines 155, 166, 181, 189); an input holds at
    most one code unit ([maxLength="1"], line 144); the timer fires once
    per [handleSolve].  An event that is not delivered leaves the state as
    it is.  [None]: the handler throws, or leaves what is modelled. *)
Definition dispatch (e : event) (u : UI) : option UI :=
  match e with
  | CellInput row col value =>
      if negb (isLoading u) && rendered u row col && bool_decide (length value ≤ 1)
      then handleCellChange row col value u else Some u
  | SolveClick => if isLoading u then Some u else handleSolve u
  | ClearClick => if isLoading u then Some u else Some (handleClear u)
  | ExampleClick => if isLoading u then Some u else Some (loadExample u)
  | TimerFires =>
      match pending u with
      | Some nb => solve_callback nb u
      | None => Some u
      end
  end.

Fixpoint run (es : list event) (u : UI) : option UI :=
  match es with
  | [] => Some u
  | e :: es' =>
      match dispatch e u with
      | Some u' => run es' u'
      | None => None
      end
  end.

(** The states reached from [initial_ui]. *)
Definition reachable (u : UI) : Prop := ∃ es, run es initial_ui = Some u.

(** A session: load the example, type 4 into cell (0,2), solve, and let
    the timer fire. *)
Definition sample_events : list event :=
  [ExampleClick; CellInput 0 2 (str_digit 4); SolveClick; TimerFires].

Definition sample_state : UI := default initial_ui (run sample_events initial_ui).

(** What a cell of the board can show: nothing, or a digit 1-9. *)
Definition shown_cell (c : jsstr) : Prop := c = [] ∨ ∃ d, 1 ≤ d ≤ 9 ∧ c = str_digit d.

Definition board_shape (rows : list (list jsstr)) : Prop :=
  length rows = 9 ∧ Forall (λ r, length r = 9 ∧ Forall shown_cell r) rows.

(** Invariant of the component's state. *)
Definition ui_inv (u : UI) : Prop :=
  (∃ rows, rows_of u = Some rows ∧ board_shape rows) ∧
  NoDup (ui_board u) ∧
  (isLoading u = true ↔ is_Some (pending u)) ∧
  (∀ nb, pending u = Some nb → ∃ g, to_grid nb = Some g ∧ wf g).

(** A cell shows nothing or one digit 1-9. *)
Definition shown_cellb (c : jsstr) : bool :=
  match c with
  | [] => true
  | [x] => bool_decide (49 ≤ x ≤ 57)%N
  | _ => false
  end.

(** Decimal digits. *)
Definition is_dec (c : N) : Prop := (48 ≤ c ≤ 57)%N.

Definition digit_of (c : N) : nat := N.to_nat (c - 48).

Definition board_shapeb (rows : list (list jsstr)) : bool :=
  bool_decide (length rows = 9) &&
  forallb (λ r, bool_decide (length r = 9) && forallb shown_cellb r) rows.

(** The number a shown cell stands for: 0 for an empty cell. *)
Definition shown_value (c : jsstr) : nat :=
  match c with
  | [x] => digit_of x
  | _ => 0
  end.

Definition keeps_givensb (b0 b : grid) : bool :=
  forallb (λ p, bool_decide (cell b0 p.1 p.2 = Some 0) || bool_decide (cell b0 p.1 p.2 = cell b p.1 p.2))
    cells.

Ltac by_eval := apply (bool_decide_unpack _); vm_compute; exact I.

(** ** Basic lemmas *)

Lemma elem_of_cells p : p ∈ cells ↔ p.1 < 9 ∧ p.2 < 9.
Proof.
  destruct p as [i j]. unfold cells.
  rewrite list_elem_of_In, in_prod_iff, <- !list_elem_of_In, !elem_of_seq.
  simpl. lia.
Qed.

Lemma cell_set_eq b i j v x :
  cell b i j = Some x → cell (set b i j v) i j = Some v.
Proof.
  unfold cell, set. rewrite list_lookup_alter_eq.
  destruct (b !! i) as [r|]; simpl; [|done].
  intros Hj. rewrite list_lookup_insert_eq; [done|].
  by apply lookup_lt_Some in Hj.
Qed.

Lemma cell_set_ne b i j i' j' v :
  (i, j) ≠ (i', j') → cell (set b i j v) i' j' = cell b i' j'.
Proof.
  intros Hne. unfold cell, set.
  destruct (decide (i = i')) as [<-|Hi].
  - rewrite list_lookup_alter_eq. destruct (b !! i) as [r|]; simpl; [|done].
    rewrite list_lookup_insert_ne; [done|]. congruence.
  - by rewrite list_lookup_alter_ne.
Qed.

Lemma cell_set b i j i' j' v x :
  cell b i j = Some x →
  cell (set b i j v) i' j' = if decide ((i, j) = (i', j')) then Some v else cell b i' j'.
Proof.
  intros H. case_decide as E.
  - injection E as <- <-. by eapply cell_set_eq.
  - by apply cell_set_ne.
Qed.

Lemma set_restore b i j v x :
  cell b i j = Some x → set (set b i j v) i j x = b.
Proof.
  unfold cell, set. intros H.
  destruct (b !! i) as [r|] eqn:Hr; simpl in H; [|done].
  apply list_eq. intros i'. destruct (decide (i = i')) as [<-|Hi].
  - rewrite !list_lookup_alter_eq, Hr. simpl. f_equal.
    rewrite list_insert_insert_eq. by apply list_insert_id.
  - by rewrite !list_lookup_alter_ne.
Qed.

Lemma set_wf b i j v : wf b → v ≤ 9 → wf (set b i j v).
Proof.
  intros [Hlen Hrows] Hv. split.
  - unfold set. by rewrite length_alter.
  - unfold set. apply Forall_lookup. intros i' r Hr.
    destruct (decide (i = i')) as [<-|Hi].
    + rewrite list_lookup_alter_eq in Hr.
      destruct (b !! i) as [r0|] eqn:Hr0; simpl in Hr; [|done].
      injection Hr as <-.
      destruct (Forall_lookup_1 _ _ _ _ Hrows Hr0) as [Hl Hvs].
      split; [by rewrite length_insert|].
      apply Forall_lookup. intros j' x Hx.
      destruct (decide (j = j')) as [<-|Hj].
      * apply list_lookup_insert_Some in Hx as [(_ & <- & _)|[? _]]; [done|done].
      * rewrite list_lookup_insert_ne in Hx by done. exact (Forall_lookup_1 _ _ _ _ Hvs Hx).
    + rewrite list_lookup_alter_ne in Hr by done. exact (Forall_lookup_1 _ _ _ _ Hrows Hr).
Qed.

(** On a well-formed board every cell in range holds a digit. *)
Lemma wf_cell b i j :
  wf b → i < 9 → j < 9 → ∃ v, cell b i j = Some v ∧ v ≤ 9.
Proof.
  intros [Hlen Hrows] Hi Hj. unfold cell.
  destruct (lookup_lt_is_Some_2 b i) as [r Hr]; [lia|].
  destruct (Forall_lookup_1 _ _ _ _ Hrows Hr) as [Hl Hvs].
  destruct (lookup_lt_is_Some_2 r j) as [v Hv]; [lia|].
  exists v. rewrite Hr. simpl. split; [done|]. exact (Forall_lookup_1 _ _ _ _ Hvs Hv).
Qed.

Lemma box_range i r : r `div` 3 * 3 ≤ i < r `div` 3 * 3 + 3 ↔ i `div` 3 = r `div` 3.
Proof.
  pose proof (Nat.div_mod i 3 ltac:(lia)).
  pose proof (Nat.mod_upper_bound i 3 ltac:(lia)).
  lia.
Qed.

Lemma forallb_seq (f : nat → bool) a n :
  forallb f (seq a n) = true ↔ ∀ k, a ≤ k < a + n → f k = true.
Proof.
  rewrite forallb_forall. setoid_rewrite in_seq. done.
Qed.

Lemma negb_bool_decide_true (P : Prop) `{Decision P} : negb (bool_decide P) = true ↔ ¬ P.
Proof. rewrite negb_true_iff. apply bool_decide_eq_false. Qed.

(** [isValid] tests exactly the cells of the row, of the column and of the
    box of [(row, col)]. *)
Lemma isValid_spec b row col num :
  row < 9 → col < 9 →
  isValid b row col num = true ↔
    (∀ j, j < 9 → cell b row j ≠ Some num) ∧
    (∀ i, i < 9 → cell b i col ≠ Some num) ∧
    (∀ i j, i < 9 → j < 9 → i `div` 3 = row `div` 3 → j `div` 3 = col `div` 3 →
       cell b i j ≠ Some num).
Proof.
  intros Hr Hc. unfold isValid.
  pose proof (Nat.div_mod row 3 ltac:(lia)). pose proof (Nat.mod_upper_bound row 3 ltac:(lia)).
  pose proof (Nat.div_mod col 3 ltac:(lia)). pose proof (Nat.mod_upper_bound col 3 ltac:(lia)).
  rewrite !andb_true_iff, !forallb_seq.
  setoid_rewrite forallb_seq. setoid_rewrite negb_bool_decide_true.
  split.
  - intros [[Hrow Hcol] Hbox]. split; [|split].
    + intros j Hj. apply Hrow. lia.
    + intros i Hi. apply Hcol. lia.
    + intros i j Hi Hj Hbi Hbj. apply Hbox; by apply box_range.
  - intros (Hrow & Hcol & Hbox). split; [split|].
    + intros j Hj. apply Hrow. lia.
    + intros i Hi. apply Hcol. lia.
    + intros i Hi j Hj. apply Hbox; [lia|lia|by apply box_range..].
Qed.

(** ** [findEmptyCell] *)

Lemma findEmptyCol_seq_None b i a n :
  findEmptyCol b i (seq a n) = None ↔ ∀ j, a ≤ j < a + n → cell b i j ≠ Some 0.
Proof.
  revert a. induction n as [|n IH]; intros a; simpl.
  - split; [intros _ j Hj; lia|done].
  - case_bool_decide as Ha.
    + split; [done|]. intros H. exfalso. apply (H a); [lia|done].
    + rewrite IH. split.
      * intros H j Hj. destruct (decide (j = a)) as [->|]; [done|]. apply H. lia.
      * intros H j Hj. apply H. lia.
Qed.

Lemma findEmptyCol_seq_Some b i a n p :
  findEmptyCol b i (seq a n) = Some p ↔
    p.1 = i ∧ a ≤ p.2 < a + n ∧ cell b i p.2 = Some 0 ∧
    ∀ j, a ≤ j < p.2 → cell b i j ≠ Some 0.
Proof.
  revert a. induction n as [|n IH]; intros a; simpl.
  - split; [done|lia].
  - case_bool_decide as Ha.
    + split.
      * intros [= <-]. simpl. split_and!; [done|lia|lia|done|]. intros j Hj. lia.
      * destruct p as [i' j']. simpl. intros (-> & Hj & Hz & Hbefore).
        destruct (decide (j' = a)) as [->|Hne]; [done|].
        exfalso. apply (Hbefore a); [lia|done].
    + rewrite IH. split.
      * intros (Hi & Hj & Hz & Hbefore). split_and!; [done|lia|lia|done|].
        intros j Hj'. destruct (decide (j = a)) as [->|]; [done|]. apply Hbefore. lia.
      * intros (Hi & Hj & Hz & Hbefore).
        assert (p.2 ≠ a) by (intros E; rewrite E in Hz; done).
        split_and!; [done|lia|lia|done|]. intros j Hj'. apply Hbefore. lia.
Qed.

Lemma findEmptyRow_seq_None b a n :
  findEmptyRow b (seq a n) = None ↔
    ∀ i j, a ≤ i < a + n → j < 9 → cell b i j ≠ Some 0.
Proof.
  revert a. induction n as [|n IH]; intros a.
  - simpl. split; [intros _ i j Hi; lia|done].
  - change (seq a (S n)) with (a :: seq (S a) n). cbn [findEmptyRow].
    destruct (findEmptyCol b a (seq 0 9)) as [p|] eqn:Hcol.
    + split; [intros [=]|]. intros Hall. exfalso.
      apply findEmptyCol_seq_Some in Hcol as (Hi & Hj & Hz & _).
      apply (Hall a p.2); [lia|lia|exact Hz].
    + rewrite IH. rewrite findEmptyCol_seq_None in Hcol. split.
      * intros H i j Hi Hj. destruct (decide (i = a)) as [->|].
        -- apply Hcol. lia.
        -- apply H; lia.
      * intros H i j Hi Hj. apply H; lia.
Qed.

Lemma findEmptyRow_seq_Some b a n p :
  findEmptyRow b (seq a n) = Some p ↔
    a ≤ p.1 < a + n ∧ p.2 < 9 ∧ cell b p.1 p.2 = Some 0 ∧
    ∀ i j, a ≤ i → j < 9 → (i < p.1 ∨ (i = p.1 ∧ j < p.2)) → cell b i j ≠ Some 0.
Proof.
  revert a. induction n as [|n IH]; intros a.
  - simpl. split; [done|lia].
  - change (seq a (S n)) with (a :: seq (S a) n). cbn [findEmptyRow].
    destruct (findEmptyCol b a (seq 0 9)) as [q|] eqn:Hcol.
    + pose proof Hcol as Hcol'.
      apply findEmptyCol_seq_Some in Hcol as (Hi & Hj & Hz & Hbefore).
      split.
      * intros [= <-]. rewrite Hi. refine (conj _ (conj _ (conj _ _))); [lia|lia|done|].
        intros i j Ha Hj' [Hlt|[-> Hlt]]; [lia|]. apply Hbefore. lia.
      * destruct p as [i' j'], q as [i0 j0]. simpl in *. subst i0.
        intros (Hi' & Hj'' & Hz' & Hbef').
        destruct (decide (i' = a)) as [->|Hne].
        -- f_equal. f_equal.
           destruct (decide (j0 < j')); [exfalso; apply (Hbef' a j0); [lia|lia|right; lia|done]|].
           destruct (decide (j' < j0)); [exfalso; apply (Hbefore j'); [lia|done]|].
           lia.
        -- exfalso. apply (Hbef' a j0); [lia|lia|left; lia|done].
    + rewrite IH. rewrite findEmptyCol_seq_None in Hcol. split.
      * intros (Hi & Hj & Hz & Hbef). refine (conj _ (conj _ (conj _ _))); [lia|lia|done|].
        intros i j Ha Hj' Hlt. destruct (decide (i = a)) as [->|].
        -- apply Hcol. lia.
        -- apply Hbef; [lia|lia|done].
      * intros (Hi & Hj & Hz & Hbef).
        assert (p.1 ≠ a) by (intros E; apply (Hcol p.2); [lia|by rewrite <- E]).
        refine (conj _ (conj _ (conj _ _))); [lia|lia|done|]. intros i j Ha Hj' Hlt. apply Hbef; [lia|lia|done].
Qed.

Lemma findEmptyCell_Some b row col :
  findEmptyCell b = Some (row, col) → row < 9 ∧ col < 9 ∧ cell b row col = Some 0.
Proof.
  unfold findEmptyCell. rewrite findEmptyRow_seq_Some. simpl. intros (? & ? & ? & _). split_and!; [lia|lia|done].
Qed.

Lemma findEmptyCell_None b : findEmptyCell b = None ↔ no_zeros b.
Proof.
  unfold findEmptyCell, no_zeros. rewrite findEmptyRow_seq_None.
  split; intros H i j Hi Hj; apply H; lia.
Qed.

(** ** The search *)

Lemma board_assign s row col v : board (assign s row col v) = set (board s) row col v.
Proof. done. Qed.

Lemma history_assign s row col v :
  history (assign s row col v) = set (board s) row col v :: history s.
Proof. done. Qed.

Section Loop.
Variable rec : St → option (bool * St).
Variables row col : nat.

(** A failed recursive call gives the board back as it found it. *)
Hypothesis rec_restores : ∀ s s', rec s = Some (false, s') → board s' = board s.

Lemma tryNums_restores nums s s' :
  cell (board s) row col = Some 0 →
  tryNums rec row col nums s = Some (false, s') → board s' = board s.
Proof.
  revert s. induction nums as [|num nums IH]; intros s Hz; simpl.
  - by intros [= <-].
  - destruct (isValid (board s) row col num); [|by apply IH].
    destruct (rec (assign s row col num)) as [[[] s1]|] eqn:Hrec; [done| |done].
    apply rec_restores in Hrec. intros Hloop.
    apply IH in Hloop.
    + rewrite Hloop, board_assign, Hrec, board_assign. by eapply set_restore.
    + rewrite board_assign, Hrec, board_assign. rewrite (set_restore _ _ _ _ 0); done.
Qed.

(** A failed loop tried every valid candidate, and each recursive call
    failed. *)
Lemma tryNums_false_tried nums s s' :
  cell (board s) row col = Some 0 →
  tryNums rec row col nums s = Some (false, s') →
  ∀ num, num ∈ nums → isValid (board s) row col num = true →
    ∃ s0 s1, board s0 = board s ∧ rec (assign s0 row col num) = Some (false, s1).
Proof.
  revert s. induction nums as [|n nums IH]; intros s Hz Hloop num Hin Hvalid.
  - by apply elem_of_nil in Hin.
  - simpl in Hloop.
    (* the state the loop goes on with has the same board *)
    assert (∀ s2, board s2 = board s → tryNums rec row col nums s2 = Some (false, s') →
              num ∈ nums → ∃ s0 s1, board s0 = board s ∧
                                     rec (assign s0 row col num) = Some (false, s1))
      as Hrest.
    { intros s2 Hb2 Hl2 Hin2.
      destruct (IH s2 ltac:(by rewrite Hb2) Hl2 num Hin2 ltac:(by rewrite Hb2))
        as (s0 & s1 & Hb0 & Hs1).
      exists s0, s1. by rewrite Hb0, Hb2. }
    destruct (isValid (board s) row col n) eqn:Hn.
    + destruct (rec (assign s row col n)) as [[[] s1]|] eqn:Hrec; [done| |done].
      assert (board (assign s1 row col 0) = board s) as Hb.
      { rewrite board_assign, (rec_restores _ _ Hrec), board_assign.
        by eapply set_restore. }
      apply elem_of_cons in Hin as [->|Hin]; [by exists s, s1|].
      by apply (Hrest (assign s1 row col 0)).
    + apply elem_of_cons in Hin as [->|Hin]; [congruence|].
      by apply (Hrest s).
Qed.
End Loop.

Lemma solve_fuel_S f s :
  solve_fuel (S f) s =
    match findEmptyCell (board s) with
    | None => Some (true, s)
    | Some (row, col) => tryNums (solve_fuel f) row col (seq 1 9) s
    end.
Proof. done. Qed.

Lemma solve_fuel_restores f s s' :
  solve_fuel f s = Some (false, s') → board s' = board s.
Proof.
  revert s s'. induction f as [|f IH]; intros s s'; [done|]. rewrite solve_fuel_S.
  destruct (findEmptyCell (board s)) as [[row col]|] eqn:Hfind; [|done].
  apply findEmptyCell_Some in Hfind as (_ & _ & Hz).
  by apply tryNums_restores.
Qed.

Lemma solve_fuel_true f s s' :
  solve_fuel f s = Some (true, s') → findEmptyCell (board s') = None.
Proof.
  revert s s'. induction f as [|f IH]; intros s s'; [done|]. rewrite solve_fuel_S.
  destruct (findEmptyCell (board s)) as [[row col]|] eqn:Hfind; [|by intros [= <-]].
  generalize (seq 1 9) s. intros nums. induction nums as [|num nums IHn]; intros s0; simpl; [done|].
  destruct (isValid (board s0) row col num); [|apply IHn].
  destruct (solve_fuel f (assign s0 row col num)) as [[[] s1]|] eqn:Hrec; [|apply IHn|done].
  intros [= <-]. by eapply IH.
Qed.

(** Every board the search goes through satisfies an invariant [Q] that a
    valid placement at an empty cell preserves. *)
Section Preserve.
Variable Q : grid → Prop.
Hypothesis Q_place : ∀ b row col num,
  Q b → row < 9 → col < 9 → cell b row col = Some 0 → 1 ≤ num ≤ 9 →
  isValid b row col num = true → Q (set b row col num).

Lemma history_grows_refl s : history_grows Q s s.
Proof. by exists []. Qed.

Lemma history_grows_trans s1 s2 s3 :
  history_grows Q s1 s2 → history_grows Q s2 s3 → history_grows Q s1 s3.
Proof.
  intros (n1 & H1 & F1) (n2 & H2 & F2). exists (n2 ++ n1).
  rewrite H2, H1, app_assoc. split; [done|]. by apply Forall_app.
Qed.

Lemma history_grows_assign s row col v :
  Q (set (board s) row col v) → history_grows Q s (assign s row col v).
Proof. intros HQ. exists [set (board s) row col v]. split; [done|]. by constructor. Qed.

Section LoopPreserve.
Variable rec : St → option (bool * St).
Hypothesis rec_restores : ∀ s s', rec s = Some (false, s') → board s' = board s.
Hypothesis rec_preserves : ∀ s ok s',
  Q (board s) → rec s = Some (ok, s') → Q (board s') ∧ history_grows Q s s'.

Lemma tryNums_preserves row col nums s ok s' :
  row < 9 → col < 9 → cell (board s) row col = Some 0 →
  Forall (λ n, 1 ≤ n ≤ 9) nums →
  Q (board s) → tryNums rec row col nums s = Some (ok, s') →
  Q (board s') ∧ history_grows Q s s'.
Proof.
  intros Hr Hc Hz Hnums. revert s ok s' Hz.
  induction Hnums as [|num nums Hnum Hnums IH]; intros s ok s' Hz HQ; simpl.
  { intros [= <- <-]. split; [done|]. apply history_grows_refl. }
  destruct (isValid (board s) row col num) eqn:Hvalid; [|by apply IH].
  assert (Q (board (assign s row col num))) as HQ1.
  { rewrite board_assign. by apply Q_place. }
  destruct (rec (assign s row col num)) as [[[] s1]|] eqn:Hrec; [| |done].
  - intros [= <- <-].
    destruct (rec_preserves _ _ _ HQ1 Hrec) as [HQ' Hg].
    split; [done|]. eapply history_grows_trans; [|exact Hg].
    by apply history_grows_assign.
  - intros Hloop.
    destruct (rec_preserves _ _ _ HQ1 Hrec) as [HQ' Hg].
    assert (board (assign s1 row col 0) = board s) as Hb2.
    { rewrite board_assign, (rec_restores _ _ Hrec), board_assign.
      by eapply set_restore. }
    destruct (IH (assign s1 row col 0) ok s') as [HQ2 Hg2];
      [by rewrite Hb2|by rewrite Hb2|done|].
    split; [done|].
    apply (history_grows_trans _ (assign s1 row col 0)); [|exact Hg2].
    apply (history_grows_trans _ (assign s row col num)); [by apply history_grows_assign|].
    apply (history_grows_trans _ s1); [exact Hg|].
    apply history_grows_assign. by rewrite <- board_assign, Hb2.
Qed.
End LoopPreserve.

Lemma solve_fuel_preserves f s ok s' :
  Q (board s) → solve_fuel f s = Some (ok, s') →
  Q (board s') ∧ history_grows Q s s'.
Proof.
  revert s ok s'. induction f as [|f IH]; intros s ok s' HQ; [done|].
  rewrite solve_fuel_S.
  destruct (findEmptyCell (board s)) as [[row col]|] eqn:Hfind.
  2:{ intros [= <- <-]. split; [done|]. apply history_grows_refl. }
  apply findEmptyCell_Some in Hfind as (Hr & Hc & Hz).
  apply tryNums_preserves; try done.
  - apply solve_fuel_restores.
  - apply Forall_forall. intros n Hn. apply elem_of_seq in Hn. lia.
Qed.
End Preserve.

(** ** Termination: each nested call has one empty cell less *)

Lemma filter_length_le {A} (P P' : A → Prop) `{∀ x, Decision (P x)} `{∀ x, Decision (P' x)}
    (l : list A) :
  (∀ y, y ∈ l → P' y → P y) → length (filter P' l) ≤ length (filter P l).
Proof.
  induction l as [|a l IH]; intros Himp; [done|].
  assert (∀ y, y ∈ l → P' y → P y) as Himp' by (intros; apply Himp; [by right|done]).
  rewrite !filter_cons. specialize (IH Himp').
  destruct (decide (P' a)) as [HP'|]; destruct (decide (P a)) as [HP|HP]; simpl; try lia.
  exfalso. apply HP, Himp; [left|]; done.
Qed.

Lemma filter_length_lt {A} (P P' : A → Prop) `{∀ x, Decision (P x)} `{∀ x, Decision (P' x)}
    (l : list A) x :
  (∀ y, y ∈ l → P' y → P y) → x ∈ l → P x → ¬ P' x →
  length (filter P' l) < length (filter P l).
Proof.
  induction l as [|a l IH]; intros Himp Hx HPx HP'x; [by apply elem_of_nil in Hx|].
  assert (∀ y, y ∈ l → P' y → P y) as Himp' by (intros; apply Himp; [by right|done]).
  rewrite !filter_cons.
  apply elem_of_cons in Hx as [->|Hx].
  - rewrite decide_False, decide_True by done. simpl.
    pose proof (filter_length_le P P' l Himp'). lia.
  - specialize (IH Himp' Hx HPx HP'x).
    destruct (decide (P' a)) as [HP'|]; destruct (decide (P a)) as [HP|HP]; simpl; try lia.
    exfalso. apply HP, Himp; [left|]; done.
Qed.

Lemma count_zeros_set b row col v :
  row < 9 → col < 9 → cell b row col = Some 0 → v ≠ 0 →
  count_zeros (set b row col v) < count_zeros b.
Proof.
  intros Hr Hc Hz Hv. unfold count_zeros.
  apply (filter_length_lt _ _ _ (row, col)).
  - intros [i j] _. simpl. rewrite (cell_set _ _ _ _ _ _ _ Hz).
    case_decide as E; [congruence|done].
  - by apply elem_of_cells.
  - done.
  - simpl. rewrite (cell_set_eq _ _ _ _ _ Hz). congruence.
Qed.

Lemma solve_fuel_terminates f s :
  count_zeros (board s) < f → ∃ res, solve_fuel f s = Some res.
Proof.
  revert s. induction f as [|f IH]; intros s Hf; [lia|].
  rewrite solve_fuel_S.
  destruct (findEmptyCell (board s)) as [[row col]|] eqn:Hfind; [|by eexists].
  apply findEmptyCell_Some in Hfind as (Hr & Hc & Hz).
  assert (Forall (λ n, 1 ≤ n ≤ 9) (seq 1 9)) as Hnums.
  { apply Forall_forall. intros n Hn. apply elem_of_seq in Hn. lia. }
  (* the loop runs on states whose board is [board s] *)
  assert (∀ s0, board s0 = board s → ∃ res, tryNums (solve_fuel f) row col (seq 1 9) s0 = Some res)
    as Hloop; [|by apply Hloop].
  induction Hnums as [|num nums Hnum Hnums IHn]; intros s0 Hb0; simpl; [by eexists|].
  destruct (isValid (board s0) row col num); [|by apply IHn].
  destruct (IH (assign s0 row col num)) as [[[] s1] Hrec].
  { rewrite board_assign, Hb0. pose proof (count_zeros_set (board s) row col num Hr Hc Hz). lia. }
  - rewrite Hrec. by eexists.
  - rewrite Hrec. apply IHn.
    rewrite board_assign, (solve_fuel_restores _ _ _ Hrec), board_assign, Hb0.
    by eapply set_restore.
Qed.

Lemma tryNums_mono (rec1 rec2 : St → option (bool * St)) row col nums s res :
  (∀ s res, rec1 s = Some res → rec2 s = Some res) →
  tryNums rec1 row col nums s = Some res → tryNums rec2 row col nums s = Some res.
Proof.
  intros Hrec. revert s. induction nums as [|num nums IH]; intros s; simpl; [done|].
  destruct (isValid (board s) row col num); [|apply IH].
  destruct (rec1 (assign s row col num)) as [[[] s1]|] eqn:H1; [| |done].
  - by rewrite (Hrec _ _ H1).
  - rewrite (Hrec _ _ H1). apply IH.
Qed.

(** Fuel beyond what the search needs changes nothing. *)
Lemma solve_fuel_mono f f' s res :
  f ≤ f' → solve_fuel f s = Some res → solve_fuel f' s = Some res.
Proof.
  revert f' s res. induction f as [|f IH]; intros f' s res Hle; [done|].
  destruct f' as [|f']; [lia|]. rewrite !solve_fuel_S.
  destruct (findEmptyCell (board s)) as [[row col]|]; [|done].
  apply tryNums_mono. intros s0 r0. apply IH. lia.
Qed.

(** ** Consistency of the board *)

Lemma same_unit_sym i j i' j' : same_unit i j i' j' → same_unit i' j' i j.
Proof. unfold same_unit. intuition. Qed.

(** A candidate accepted by [isValid] occurs nowhere in the row, column
    and box of the cell. *)
Lemma isValid_unit b row col num i j :
  row < 9 → col < 9 → i < 9 → j < 9 → isValid b row col num = true →
  same_unit row col i j → cell b i j ≠ Some num.
Proof.
  intros Hr Hc Hi Hj Hvalid Hunit.
  apply isValid_spec in Hvalid as (Hrow & Hcol & Hbox); [|done|done].
  destruct Hunit as [<-|[<-|[Hbi Hbj]]]; auto.
Qed.

Lemma consistent_place b row col num :
  row < 9 → col < 9 → cell b row col = Some 0 →
  isValid b row col num = true → consistent b → consistent (set b row col num).
Proof.
  intros Hr Hc Hz Hvalid Hcons i j i' j' v Hi Hj Hi' Hj' Hne Hunit.
  rewrite !(cell_set _ _ _ _ _ _ _ Hz).
  case_decide as E1; case_decide as E2.
  - congruence.
  - injection E1 as <- <-. intros [= <-] _.
    by apply (isValid_unit b row col num i' j').
  - injection E2 as <- <-. intros Hv Hv0 [= <-].
    apply (isValid_unit b row col num i j); try done. by apply same_unit_sym.
  - by apply Hcons.
Qed.

Lemma wf_consistent_place b row col num :
  wf_consistent b → row < 9 → col < 9 → cell b row col = Some 0 → 1 ≤ num ≤ 9 →
  isValid b row col num = true → wf_consistent (set b row col num).
Proof.
  intros [Hwf Hcons] Hr Hc Hz Hnum Hvalid. split.
  - apply set_wf; [done|lia].
  - by apply consistent_place.
Qed.

(** Nine cells of one unit, pairwise different and each holding a digit
    1-9, hold each digit once. *)
Lemma unit_perm {A} `{EqDecision A} (f : A → option nat) (l : list A) :
  NoDup l → length l = 9 →
  (∀ x y, In x l → In y l → x ≠ y → f x ≠ f y) →
  (∀ x, In x l → ∃ v, f x = Some v ∧ 1 ≤ v ≤ 9) →
  Permutation (map f l) digits.
Proof.
  intros Hnd Hlen Hdiff Hdig.
  apply NoDup_Permutation_bis.
  - apply NoDup_map_NoDup_ForallPairs; [|by apply NoDup_ListNoDup].
    intros x y Hx Hy Hf. destruct (decide (x = y)); [done|].
    exfalso. by apply (Hdiff x y).
  - by rewrite length_map, Hlen.
  - intros o Ho. apply in_map_iff in Ho as (x & <- & Hx).
    destruct (Hdig x Hx) as (v & -> & Hv).
    apply in_map. apply in_seq. lia.
Qed.

Lemma seq_0_9_nodup : NoDup (seq 0 9).
Proof. apply NoDup_ListNoDup, seq_NoDup. Qed.

Lemma box_coords_nodup k : k < 9 → NoDup (box_coords k).
Proof.
  intros Hk. do 9 (destruct k as [|k]; [apply (bool_decide_unpack _); vm_compute; exact I|]).
  lia.
Qed.

Lemma box_coords_spec k p :
  k < 9 → In p (box_coords k) →
  p.1 < 9 ∧ p.2 < 9 ∧ p.1 `div` 3 = k `div` 3 ∧ p.2 `div` 3 = k `mod` 3.
Proof.
  intros Hk. destruct p as [i j]. unfold box_coords.
  rewrite in_prod_iff, !in_seq. cbn [fst snd]. intros [Hi Hj].
  pose proof (Nat.div_mod k 3 ltac:(lia)). pose proof (Nat.mod_upper_bound k 3 ltac:(lia)).
  pose proof (Nat.div_mod i 3 ltac:(lia)). pose proof (Nat.mod_upper_bound i 3 ltac:(lia)).
  pose proof (Nat.div_mod j 3 ltac:(lia)). pose proof (Nat.mod_upper_bound j 3 ltac:(lia)).
  lia.
Qed.

Lemma box_coords_length k : length (box_coords k) = 9.
Proof. unfold box_coords. by rewrite length_prod, !length_seq. Qed.

(** A full, well-formed, consistent board is solved. *)
Lemma consistent_full_solved b :
  wf b → no_zeros b → consistent b → solved b.
Proof.
  intros Hwf Hnz Hcons. split; [done|]. split; [done|].
  assert (∀ i j, i < 9 → j < 9 → ∃ v, cell b i j = Some v ∧ 1 ≤ v ≤ 9) as Hdig.
  { intros i j Hi Hj. destruct (wf_cell b i j Hwf Hi Hj) as (v & Hv & Hle).
    exists v. split; [done|]. destruct v; [by destruct (Hnz i j Hi Hj)|lia]. }
  assert (∀ i j i' j', i < 9 → j < 9 → i' < 9 → j' < 9 → (i, j) ≠ (i', j') →
            same_unit i j i' j' → cell b i j ≠ cell b i' j') as Hne.
  { intros i j i' j' Hi Hj Hi' Hj' Hd Hu Heq.
    destruct (Hdig i j Hi Hj) as (v & Hv & Hrange).
    apply (Hcons i j i' j' v); try done; [lia|congruence]. }
  intros k Hk. split_and!.
  - apply unit_perm; [apply seq_0_9_nodup|by rewrite length_seq| |].
    + intros x y Hx Hy Hxy. apply in_seq in Hx, Hy. apply Hne; try lia; [congruence|by left].
    + intros x Hx. apply in_seq in Hx. apply Hdig; lia.
  - apply unit_perm; [apply seq_0_9_nodup|by rewrite length_seq| |].
    + intros x y Hx Hy Hxy. apply in_seq in Hx, Hy. apply Hne; try lia; [congruence|by right; left].
    + intros x Hx. apply in_seq in Hx. apply Hdig; lia.
  - apply unit_perm; [by apply box_coords_nodup|apply box_coords_length| |].
    + intros [i j] [i' j'] Hx Hy Hxy.
      apply box_coords_spec in Hx as (? & ? & ? & ?), Hy as (? & ? & ? & ?); [|done..].
      cbn [fst snd] in *. apply Hne; try done. right; right; lia.
    + intros [i j] Hx. apply box_coords_spec in Hx as (? & ? & _); [|done].
      apply Hdig; done.
Qed.

(** ** The givens *)

Lemma keeps_givens_refl b : keeps_givens b b.
Proof. by intros i j v H _. Qed.

Lemma keeps_givens_place b0 b row col num :
  keeps_givens b0 b → cell b row col = Some 0 → keeps_givens b0 (set b row col num).
Proof.
  intros Hk Hz i j v Hv Hv0. rewrite (cell_set _ _ _ _ _ _ _ Hz).
  case_decide as E.
  - injection E as <- <-. rewrite (Hk _ _ _ Hv Hv0) in Hz. congruence.
  - by apply Hk.
Qed.

Lemma conflicts_given_refl b : conflicts_given b b.
Proof. intros i j i' j' v _ _ _ _ _ _ H1 _ H2. done. Qed.

Lemma conflicts_given_place b0 b row col num :
  row < 9 → col < 9 → cell b row col = Some 0 → isValid b row col num = true →
  conflicts_given b0 b → conflicts_given b0 (set b row col num).
Proof.
  intros Hr Hc Hz Hvalid Hconf i j i' j' v Hi Hj Hi' Hj' Hne Hunit.
  rewrite !(cell_set _ _ _ _ _ _ _ Hz).
  case_decide as E1; case_decide as E2.
  - congruence.
  - injection E1 as <- <-. intros [= <-] _ Hv'. exfalso.
    by apply (isValid_unit b row col num i' j').
  - injection E2 as <- <-. intros Hv Hv0 [= <-]. exfalso.
    apply (isValid_unit b row col num i j); try done. by apply same_unit_sym.
  - by apply Hconf.
Qed.

Lemma search_inv_place b0 b row col num :
  search_inv b0 b → row < 9 → col < 9 → cell b row col = Some 0 → 1 ≤ num ≤ 9 →
  isValid b row col num = true → search_inv b0 (set b row col num).
Proof.
  intros (Hwf & Hk & Hconf) Hr Hc Hz Hnum Hvalid. split_and!.
  - apply set_wf; [done|lia].
  - by apply keeps_givens_place.
  - by apply conflicts_given_place.
Qed.

Lemma cell_range b i j v : wf b → cell b i j = Some v → i < 9 ∧ j < 9.
Proof.
  intros [Hlen Hrows]. unfold cell.
  destruct (b !! i) as [r|] eqn:Hr; simpl; [|done]. intros Hj.
  pose proof (lookup_lt_Some _ _ _ Hr). pose proof (lookup_lt_Some _ _ _ Hj).
  destruct (Forall_lookup_1 _ _ _ _ Hrows Hr) as [Hl _]. lia.
Qed.

(** Two well-formed boards with the same cells are equal. *)
Lemma grid_ext b b' :
  wf b → wf b' → (∀ i j, i < 9 → j < 9 → cell b i j = cell b' i j) → b = b'.
Proof.
  intros [Hlen Hrows] [Hlen' Hrows'] Hcells. apply list_eq. intros i.
  destruct (decide (i < 9)) as [Hi|Hi].
  - destruct (lookup_lt_is_Some_2 b i) as [r Hr]; [lia|].
    destruct (lookup_lt_is_Some_2 b' i) as [r' Hr']; [lia|].
    rewrite Hr, Hr'. f_equal.
    destruct (Forall_lookup_1 _ _ _ _ Hrows Hr) as [Hl _].
    destruct (Forall_lookup_1 _ _ _ _ Hrows' Hr') as [Hl' _].
    apply list_eq. intros j. destruct (decide (j < 9)) as [Hj|Hj].
    + pose proof (Hcells i j Hi Hj) as H. unfold cell in H. by rewrite Hr, Hr' in H.
    + rewrite !lookup_ge_None_2; [done|lia|lia].
  - rewrite !lookup_ge_None_2; [done|lia|lia].
Qed.

(** ** Completeness: a failed search leaves no completion behind *)

Lemma completion_valid b h row col v :
  completion b h → row < 9 → col < 9 → cell b row col = Some 0 →
  cell h row col = Some v → isValid b row col v = true.
Proof.
  intros (Hwf & Hnz & Hcons & Hk) Hr Hc Hz Hv.
  assert (v ≠ 0) as Hv0 by (intros ->; by apply (Hnz row col)).
  assert (∀ i j, i < 9 → j < 9 → same_unit row col i j → cell b i j ≠ Some v) as Hunit.
  { intros i j Hi Hj Hu Hb. pose proof (Hk _ _ _ Hb Hv0) as Hh.
    destruct (decide ((row, col) = (i, j))) as [E|E].
    - injection E as <- <-. congruence.
    - by apply (Hcons row col i j v). }
  apply isValid_spec; [done|done|]. split_and!.
  - intros j Hj. apply Hunit; [done|done|by left].
  - intros i Hi. apply Hunit; [done|done|by right; left].
  - intros i j Hi Hj Hbi Hbj. apply Hunit; [done|done|by right; right].
Qed.

Lemma completion_set b h row col v :
  completion b h → cell b row col = Some 0 → cell h row col = Some v →
  completion (set b row col v) h.
Proof.
  intros (Hwf & Hnz & Hcons & Hk) Hz Hv. split_and!; try done.
  intros i j x Hx Hx0. rewrite (cell_set _ _ _ _ _ _ _ Hz) in Hx.
  case_decide as E.
  - injection E as <- <-. congruence.
  - by apply Hk.
Qed.

Lemma solve_fuel_complete f s s' h :
  solve_fuel f s = Some (false, s') → completion (board s) h → False.
Proof.
  revert s s' h. induction f as [|f IH]; intros s s' h; [done|].
  rewrite solve_fuel_S.
  destruct (findEmptyCell (board s)) as [[row col]|] eqn:Hfind; [|done].
  apply findEmptyCell_Some in Hfind as (Hr & Hc & Hz).
  intros Hloop Hcomp.
  destruct Hcomp as [Hwf Hrest] eqn:Hc'. clear Hc'.
  destruct (wf_cell h row col Hwf Hr Hc) as (v & Hv & Hle).
  assert (v ≠ 0) as Hv0 by (intros ->; by apply (proj1 Hrest row col)).
  destruct (tryNums_false_tried (solve_fuel f) row col (solve_fuel_restores f)
              (seq 1 9) s s' Hz Hloop v) as (s0 & s1 & Hb0 & Hrec).
  - apply elem_of_seq. lia.
  - by apply (completion_valid _ h row col v).
  - apply (IH _ _ h Hrec). rewrite board_assign, Hb0.
    by apply completion_set.
Qed.

(** A full board [h] extending [b] whose only clashes are between givens
    of [g] offers a valid candidate at every empty cell of [b]. *)
Lemma fill_valid g b h row col v :
  keeps_givens g b → keeps_givens b h → conflicts_given g h →
  row < 9 → col < 9 → cell b row col = Some 0 → cell h row col = Some v → v ≠ 0 →
  isValid b row col v = true.
Proof.
  intros Hgb Hbh Hconf Hr Hc Hz Hv Hv0.
  assert (∀ i j, i < 9 → j < 9 → same_unit row col i j → cell b i j ≠ Some v) as Hunit.
  { intros i j Hi Hj Hu Hb. pose proof (Hbh _ _ _ Hb Hv0) as Hh.
    destruct (decide ((row, col) = (i, j))) as [E|E].
    - injection E as <- <-. congruence.
    - destruct (Hconf row col i j v Hr Hc Hi Hj E Hu Hv Hv0 Hh) as [Hg _].
      pose proof (Hgb _ _ _ Hg Hv0). congruence. }
  apply isValid_spec; [done|done|]. split_and!.
  - intros j Hj. apply Hunit; [done|done|by left].
  - intros i Hi. apply Hunit; [done|done|by right; left].
  - intros i j Hi Hj Hbi Hbj. apply Hunit; [done|done|by right; right].
Qed.

(** The search does not fail while such a board exists. *)
Lemma solve_fuel_fill_false f s s' g h :
  solve_fuel f s = Some (false, s') →
  keeps_givens g (board s) → wf h → no_zeros h → keeps_givens (board s) h →
  conflicts_given g h → False.
Proof.
  revert s s'. induction f as [|f IH]; intros s s'; [done|].
  rewrite solve_fuel_S.
  destruct (findEmptyCell (board s)) as [[row col]|] eqn:Hfind; [|done].
  apply findEmptyCell_Some in Hfind as (Hr & Hc & Hz).
  intros Hloop Hgb Hwf Hnz Hbh Hconf.
  destruct (wf_cell h row col Hwf Hr Hc) as (v & Hv & Hle).
  assert (v ≠ 0) as Hv0 by (intros ->; by apply (Hnz row col)).
  destruct (tryNums_false_tried (solve_fuel f) row col (solve_fuel_restores f)
              (seq 1 9) s s' Hz Hloop v) as (s0 & s1 & Hb0 & Hrec).
  - apply elem_of_seq. lia.
  - by apply (fill_valid g (board s) h row col v).
  - apply (IH _ _ Hrec); rewrite ?board_assign, ?Hb0; try done.
    + by apply keeps_givens_place.
    + intros i j x Hx Hx0. rewrite (cell_set _ _ _ _ _ _ _ Hz) in Hx.
      case_decide as E; [injection E as <- <-; congruence|by apply Hbh].
Qed.

Lemma fill_single_completion b h p :
  p ∈ cells → completion b h → completion (fill_single b p) h.
Proof.
  destruct p as [i j]. intros Hp Hcomp. apply elem_of_cells in Hp as [Hi Hj].
  unfold fill_single. cbn [fst snd].
  case_bool_decide as Hz; [|done].
  destruct (candidates b i j) as [|v [|]] eqn:Hcand; [done| |done].
  destruct Hcomp as (Hwf & Hnz & Hrest) eqn:Hc'. clear Hc'.
  destruct (wf_cell h i j Hwf Hi Hj) as (x & Hx & Hle).
  assert (x ≠ 0) as Hx0 by (intros ->; by apply (Hnz i j)).
  assert (x ∈ candidates b i j) as Hin.
  { unfold candidates. apply list_elem_of_filter. split.
    - by apply (completion_valid _ h i j x).
    - apply elem_of_seq. lia. }
  rewrite Hcand in Hin. apply list_elem_of_singleton in Hin as ->.
  by apply completion_set.
Qed.

Lemma foldl_fill_completion l b h :
  (∀ p, p ∈ l → p ∈ cells) → completion b h → completion (foldl fill_single b l) h.
Proof.
  revert b. induction l as [|p l IH]; intros b Hsub Hcomp; cbn [foldl]; [exact Hcomp|].
  apply IH.
  - intros q Hq. apply Hsub, elem_of_cons. right. exact Hq.
  - apply fill_single_completion; [apply Hsub, elem_of_cons; left; reflexivity|exact Hcomp].
Qed.

Lemma singles_pass_completion b h : completion b h → completion (singles_pass b) h.
Proof. apply foldl_fill_completion. intros p Hp. exact Hp. Qed.

Lemma propagate_completion n b h : completion b h → completion (propagate n b) h.
Proof.
  intros Hcomp. induction n as [|n IH]; cbn [propagate]; [exact Hcomp|].
  apply singles_pass_completion, IH.
Qed.

Lemma consistentb_sound b : consistentb b = true → consistent b.
Proof.
  unfold consistentb. rewrite forallb_forall. intros H i j i' j' v Hi Hj Hi' Hj' Hne Hu Hv Hv0 Hv'.
  assert (In (i, j) cells) as Hp by (apply list_elem_of_In, elem_of_cells; done).
  assert (In (i', j') cells) as Hq by (apply list_elem_of_In, elem_of_cells; done).
  specialize (H _ Hp). rewrite forallb_forall in H. specialize (H _ Hq). cbn [fst snd] in H.
  rewrite !orb_true_iff in H.
  destruct H as [[[H|H]|H]|H].
  - by apply bool_decide_eq_true in H.
  - apply negb_true_iff, bool_decide_eq_false in H. done.
  - apply bool_decide_eq_true in H. congruence.
  - apply negb_true_iff, bool_decide_eq_false in H. congruence.
Qed.

Lemma conflicts_givenb_sound b0 b : conflicts_givenb b0 b = true → conflicts_given b0 b.
Proof.
  unfold conflicts_givenb. rewrite forallb_forall. intros H i j i' j' v Hi Hj Hi' Hj' Hne Hu Hv Hv0 Hv'.
  assert (In (i, j) cells) as Hp by (apply list_elem_of_In, elem_of_cells; done).
  assert (In (i', j') cells) as Hq by (apply list_elem_of_In, elem_of_cells; done).
  specialize (H _ Hp). rewrite forallb_forall in H. specialize (H _ Hq). cbn [fst snd] in H.
  rewrite !orb_true_iff, andb_true_iff in H.
  destruct H as [[[[H|H]|H]|H]|[H1 H2]].
  - by apply bool_decide_eq_true in H.
  - apply negb_true_iff, bool_decide_eq_false in H. done.
  - apply bool_decide_eq_true in H. congruence.
  - apply negb_true_iff, bool_decide_eq_false in H. congruence.
  - apply bool_decide_eq_true in H1, H2. rewrite Hv in H1, H2. done.
Qed.

Lemma keeps_givensb_sound b0 b : wf b0 → keeps_givensb b0 b = true → keeps_givens b0 b.
Proof.
  intros Hwf H i j v Hv Hv0. destruct (cell_range b0 i j v Hwf Hv) as [Hi Hj].
  unfold keeps_givensb in H. rewrite forallb_forall in H.
  assert (In (i, j) cells) as Hp by (apply list_elem_of_In, elem_of_cells; done).
  specialize (H _ Hp). cbn [fst snd] in H. apply orb_true_iff in H as [H|H];
    apply bool_decide_eq_true in H; congruence.
Qed.

Lemma solve_full g : findEmptyCell g = None → solveSudoku g = Some (true, mkSt g []).
Proof. intros H. unfold solveSudoku. rewrite solve_fuel_S. simpl. by rewrite H. Qed.

(** ** No completion of [dup_grid] *)

Lemma dup_grid_givens i j v :
  cell dup_grid i j = Some v → v ≠ 0 → i = 0.
Proof.
  intros Hv Hv0.
  assert (wf dup_grid) as Hwf by by_eval.
  destruct (cell_range _ _ _ _ Hwf Hv) as [Hi Hj].
  assert (Forall (λ p, p.1 = 0 ∨ cell dup_grid p.1 p.2 = Some 0) cells) as Hall by by_eval.
  assert ((i, j) ∈ cells) as Hin by (by apply elem_of_cells).
  destruct (proj1 (Forall_forall _ _) Hall _ Hin) as [H|H]; cbn [fst snd] in H; [done|congruence].
Qed.

(** No board reached from [dup_grid] is full: rows 1-8 need a 1 each,
    columns 0 and 1 already have theirs in row 0, and seven columns cannot
    take eight 1s. *)
Lemma dup_grid_stuck h :
  wf h → no_zeros h → keeps_givens dup_grid h → conflicts_given dup_grid h → False.
Proof.
  intros Hwf Hnz Hk Hconf.
  assert (∀ i j, i < 9 → j < 9 → ∃ v, cell h i j = Some v ∧ 1 ≤ v ≤ 9) as Hdig.
  { intros i j Hi Hj. destruct (wf_cell h i j Hwf Hi Hj) as (v & Hv & Hle).
    exists v. split; [done|]. destruct v; [by destruct (Hnz i j Hi Hj)|lia]. }
  (* two equal digits in one unit sit in row 0 *)
  assert (∀ i j i' j' v, i < 9 → j < 9 → i' < 9 → j' < 9 → (i, j) ≠ (i', j') →
            same_unit i j i' j' → cell h i j = Some v → v ≠ 0 → cell h i' j' = Some v →
            i = 0 ∧ i' = 0) as Hrow0.
  { intros i j i' j' v Hi Hj Hi' Hj' Hne Hu Hv Hv0 Hv'.
    destruct (Hconf i j i' j' v Hi Hj Hi' Hj' Hne Hu Hv Hv0 Hv') as [H1 H2].
    split; by eapply dup_grid_givens. }
  assert (cell h 0 0 = Some 1) as H00 by (apply Hk; [reflexivity|lia]).
  assert (cell h 0 1 = Some 1) as H01 by (apply Hk; [reflexivity|lia]).
  (* every row below row 0 holds a 1 *)
  assert (∀ r, 1 ≤ r < 9 → ∃ j, j < 9 ∧ cell h r j = Some 1) as Hone.
  { intros r Hr.
    assert (Permutation (row_cells h r) digits) as Hperm.
    { apply unit_perm; [apply seq_0_9_nodup|by rewrite length_seq| |].
      - intros x y Hx Hy Hxy Heq. apply in_seq in Hx, Hy.
        destruct (Hdig r x) as (v & Hv & Hrange); [lia|lia|].
        cbv beta in Heq.
        destruct (Hrow0 r x r y v) as [Hr0 _];
          [lia|lia|lia|lia|intros [= E]; lia|by left|exact Hv|lia|by rewrite <- Heq|lia].
      - intros x Hx. apply in_seq in Hx. apply Hdig; lia. }
    assert (In (Some 1) (row_cells h r)) as Hin.
    { apply (Permutation_in _ (Permutation_sym Hperm)). apply in_map, in_seq. lia. }
    apply in_map_iff in Hin as (j & Hj & Hin). apply in_seq in Hin.
    exists j. split; [lia|done]. }
  set (L := filter (λ p, cell h p.1 p.2 = Some 1) (list_prod (seq 1 8) (seq 0 9))).
  assert (∀ p, In p L ↔ (1 ≤ p.1 < 9 ∧ p.2 < 9) ∧ cell h p.1 p.2 = Some 1) as HL.
  { intros [i j]. unfold L. rewrite <- list_elem_of_In, list_elem_of_filter, list_elem_of_In.
    rewrite in_prod_iff, !in_seq. cbn [fst snd]. split; intros [H1 H2]; split; try done; lia. }
  assert (NoDup L) as HnodupL.
  { apply NoDup_filter. by_eval. }
  (* eight rows ... *)
  assert (8 ≤ length L) as Hge.
  { rewrite <- (length_map fst L).
    change 8 with (length (seq 1 8)).
    apply List.NoDup_incl_length; [apply seq_NoDup|].
    intros r Hr. apply in_seq in Hr.
    destruct (Hone r) as (j & Hj & H1); [lia|].
    apply in_map_iff. exists (r, j). split; [done|]. apply HL. cbn [fst snd]. split; [lia|done]. }
  (* ... in seven columns *)
  assert (length L ≤ 7) as Hle.
  { rewrite <- (length_map snd L).
    change 7 with (length (seq 2 7)).
    apply List.NoDup_incl_length.
    - apply NoDup_map_NoDup_ForallPairs; [|by apply NoDup_ListNoDup].
      intros [i j] [i' j'] Hp Hq Heq. cbn [snd] in Heq. subst j'.
      apply HL in Hp as [Hp Hp1], Hq as [Hq Hq1]. cbn [fst snd] in *.
      destruct (decide ((i, j) = (i', j))) as [E|E]; [done|].
      destruct (Hrow0 i j i' j 1) as [Hi0 _];
        [lia|lia|lia|lia|exact E|by right; left|exact Hp1|lia|exact Hq1|lia].
    - intros c Hc. apply in_map_iff in Hc as ([i j] & <- & Hp).
      apply HL in Hp as [Hp Hp1]. cbn [fst snd] in *. apply in_seq.
      assert (j ≠ 0).
      { intros ->. destruct (Hrow0 i 0 0 0 1) as [Hi0 _];
          [lia|lia|lia|lia|intros [= E]; lia|by right; left|exact Hp1|lia|exact H00|lia]. }
      assert (j ≠ 1).
      { intros ->. destruct (Hrow0 i 1 0 1 1) as [Hi0 _];
          [lia|lia|lia|lia|intros [= E]; lia|by right; left|exact Hp1|lia|exact H01|lia]. }
      lia. }
  lia.
Qed.

(** * Claims *)

(** ** C1: soundness.  On a well-formed input whose givens are consistent,
    a successful [solveSudoku] leaves a board without zeros whose rows,
    columns and boxes are permutations of 1-9. *)
Theorem solve_sound (g : grid) (s : St) :
  wf g → consistent g → solveSudoku g = Some (true, s) → solved (board s).
Proof.
  intros Hwf Hcons Hsolve.
  destruct (solve_fuel_preserves wf_consistent wf_consistent_place
              (S (count_zeros g)) (mkSt g []) true s (conj Hwf Hcons) Hsolve)
    as [[Hwf' Hcons'] _].
  apply consistent_full_solved; [done| |done].
  apply findEmptyCell_None. by eapply solve_fuel_true.
Qed.

Lemma solve_sound_witness :
  wf near_solution ∧ consistent near_solution ∧
  solveSudoku near_solution = Some (true, mkSt example_solution [example_solution]) ∧
  solved (board (mkSt example_solution [example_solution])).
Proof.
  assert (wf near_solution) as Hwf by by_eval.
  assert (consistent near_solution) as Hcons by (apply consistentb_sound; vm_compute; reflexivity).
  assert (solveSudoku near_solution = Some (true, mkSt example_solution [example_solution])) as Hs
    by (vm_compute; reflexivity).
  split_and!; [exact Hwf|exact Hcons|exact Hs|].
  exact (solve_sound near_solution _ Hwf Hcons Hs).
Defined.

(** ** C3: a failed [solveSudoku] gives the board back cell for cell. *)
Theorem solve_false_unchanged (g : grid) (s : St) :
  solveSudoku g = Some (false, s) → board s = g.
Proof. intros H. exact (solve_fuel_restores _ _ _ H). Qed.

Lemma solve_false_unchanged_witness :
  solveSudoku backtrack_grid = Some (false, mkSt backtrack_grid backtrack_writes) ∧
  board (mkSt backtrack_grid backtrack_writes) = backtrack_grid.
Proof.
  assert (solveSudoku backtrack_grid = Some (false, mkSt backtrack_grid backtrack_writes)) as Hs
    by (vm_compute; reflexivity).
  split; [exact Hs|exact (solve_false_unchanged backtrack_grid _ Hs)].
Defined.

(** ** C4: a full, consistent board is a fixed point: [solveSudoku]
    returns true at once and writes nothing. *)
Theorem solve_solved_fixpoint (g : grid) :
  wf g → no_zeros g → consistent g → solveSudoku g = Some (true, mkSt g []).
Proof. intros _ Hnz _. by apply solve_full, findEmptyCell_None. Qed.

Lemma solve_solved_fixpoint_witness :
  wf example_solution ∧ no_zeros example_solution ∧ consistent example_solution ∧
  solveSudoku example_solution = Some (true, mkSt example_solution []).
Proof.
  assert (wf example_solution) as Hwf by by_eval.
  assert (no_zeros example_solution) as Hnz
    by (apply findEmptyCell_None; vm_compute; reflexivity).
  assert (consistent example_solution) as Hcons
    by (apply consistentb_sound; vm_compute; reflexivity).
  split_and!; [exact Hwf|exact Hnz|exact Hcons|].
  exact (solve_solved_fixpoint example_solution Hwf Hnz Hcons).
Defined.

(** ** C5: termination.  The search needs at most one nested call more
    than there are empty cells; with that much fuel or more it always
    completes, with the same result. *)
Theorem solveSudoku_terminates (g : grid) :
  ∃ res, solveSudoku g = Some res ∧
    ∀ fuel, count_zeros g < fuel → solve_fuel fuel (mkSt g []) = Some res.
Proof.
  destruct (solve_fuel_terminates (S (count_zeros g)) (mkSt g [])) as [res Hres]; [simpl; lia|].
  exists res. split; [exact Hres|].
  intros fuel Hfuel. apply (solve_fuel_mono (S (count_zeros g))); [lia|exact Hres].
Qed.

(** ** C6: [findEmptyCell] returns the first cell holding 0 in row-major
    order, and nothing exactly when no cell holds 0. *)
Theorem findEmptyCell_first_zero (g : grid) :
  (∀ i j, findEmptyCell g = Some (i, j) ↔
     i < 9 ∧ j < 9 ∧ cell g i j = Some 0 ∧
     ∀ i' j', i' < 9 → j' < 9 → (i' < i ∨ (i' = i ∧ j' < j)) → cell g i' j' ≠ Some 0) ∧
  (findEmptyCell g = None ↔ no_zeros g).
Proof.
  split; [|apply findEmptyCell_None].
  intros i j. unfold findEmptyCell. rewrite findEmptyRow_seq_Some. cbn [fst snd].
  split.
  - intros (Hi & Hj & Hz & Hbef). split_and!; [lia|lia|done|].
    intros i' j' Hi' Hj' Hlt. apply Hbef; [lia|done|done].
  - intros (Hi & Hj & Hz & Hbef). split_and!; [lia|lia|lia|done|].
    intros i' j' _ Hj' Hlt. apply Hbef; [|done|done]. destruct Hlt; lia.
Qed.

(** ** C7: for an empty cell and a digit, [isValid] holds exactly when the
    digit occurs in no cell of the row, of the column and of the 3x3 box.
    [isValid] is a function of the board: it writes nothing. *)
Theorem isValid_correct (g : grid) (row col num : nat) :
  wf g → row < 9 → col < 9 → cell g row col = Some 0 → 1 ≤ num ≤ 9 →
  (isValid g row col num = true ↔
    (∀ j, j < 9 → cell g row j ≠ Some num) ∧
    (∀ i, i < 9 → cell g i col ≠ Some num) ∧
    (∀ i j, i < 9 → j < 9 → i `div` 3 = row `div` 3 → j `div` 3 = col `div` 3 →
       cell g i j ≠ Some num)).
Proof. intros _ Hr Hc _ _. by apply isValid_spec. Qed.

Lemma isValid_correct_witness :
  wf example_grid ∧ 0 < 9 ∧ 2 < 9 ∧ cell example_grid 0 2 = Some 0 ∧ 1 ≤ 4 ≤ 9 ∧
  (isValid example_grid 0 2 4 = true ↔
    (∀ j, j < 9 → cell example_grid 0 j ≠ Some 4) ∧
    (∀ i, i < 9 → cell example_grid i 2 ≠ Some 4) ∧
    (∀ i j, i < 9 → j < 9 → i `div` 3 = 0 `div` 3 → j `div` 3 = 2 `div` 3 →
       cell example_grid i j ≠ Some 4)).
Proof.
  assert (wf example_grid) as Hwf by by_eval.
  assert (cell example_grid 0 2 = Some 0) as Hz by reflexivity.
  split_and!; [exact Hwf|lia|lia|exact Hz|lia|lia|].
  apply (isValid_correct example_grid 0 2 4 Hwf); [lia|lia|exact Hz|lia].
Defined.

(** ** C9: frame.  Every given of the input keeps its value in the final
    board and in every board the search writes on the way. *)
Theorem solve_keeps_givens (g : grid) (ok : bool) (s : St) :
  solveSudoku g = Some (ok, s) → ∀ b, b ∈ board s :: history s → keeps_givens g b.
Proof.
  intros Hsolve.
  destruct (solve_fuel_preserves (keeps_givens g)
              (λ b row col num Hk _ _ Hz _ _, keeps_givens_place g b row col num Hk Hz)
              (S (count_zeros g)) (mkSt g []) ok s (keeps_givens_refl g) Hsolve)
    as [Hk (new & Hnew & Hall)].
  cbn [history] in Hnew. rewrite app_nil_r in Hnew.
  intros b Hb. apply elem_of_cons in Hb as [->|Hb]; [exact Hk|].
  rewrite Hnew in Hb. by eapply Forall_forall.
Qed.

Lemma solve_keeps_givens_witness :
  solveSudoku near_solution = Some (true, mkSt example_solution [example_solution]) ∧
  ∀ b, b ∈ [example_solution; example_solution] → keeps_givens near_solution b.
Proof.
  assert (solveSudoku near_solution = Some (true, mkSt example_solution [example_solution])) as Hs
    by (vm_compute; reflexivity).
  split; [exact Hs|].
  exact (solve_keeps_givens near_solution true _ Hs).
Defined.

(** ** C10: a board without zeros is reported solved at once and left
    unchanged, consistent or not. *)
Theorem solve_zero_free (g : grid) :
  wf g → no_zeros g → solveSudoku g = Some (true, mkSt g []).
Proof. intros _ Hnz. by apply solve_full, findEmptyCell_None. Qed.

Lemma solve_zero_free_witness :
  wf conflict_full ∧ no_zeros conflict_full ∧ ¬ consistent conflict_full ∧
  solveSudoku conflict_full = Some (true, mkSt conflict_full []).
Proof.
  assert (wf conflict_full) as Hwf by by_eval.
  assert (no_zeros conflict_full) as Hnz by (apply findEmptyCell_None; vm_compute; reflexivity).
  split_and!; [exact Hwf|exact Hnz| |exact (solve_zero_free conflict_full Hwf Hnz)].
  intros Hcons. apply (Hcons 0 0 0 1 5); [lia|lia|lia|lia|congruence|by left|reflexivity|lia|reflexivity].
Defined.

(** ** C2 (as stated, refuted): duplicated givens do not make
    [solveSudoku] fail in general.  [dup_accepted] has two 5s in row 0 and
    one empty cell; the search fills it and reports success. *)
Lemma dup_givens_not_rejected :
  ¬ (∀ g, wf g → ¬ consistent g → ∃ s, solveSudoku g = Some (false, s)).
Proof.
  intros Hclaim.
  assert (wf dup_accepted) as Hwf by by_eval.
  assert (¬ consistent dup_accepted) as Hnc.
  { intros Hcons. apply (Hcons 0 0 0 1 5); [lia|lia|lia|lia|congruence|by left|reflexivity|lia|reflexivity]. }
  destruct (Hclaim dup_accepted Hwf Hnc) as [s Hs].
  vm_compute in Hs. discriminate Hs.
Qed.

(** ** C2 (amended): duplicated givens are not detected as such.  A grid
    is reported solved whenever its empty cells can be filled so that
    every clash of the full board is between two givens; [dup_accepted]
    (two 5s in row 0, one empty cell) is such a grid and is reported
    solved.  On row 0 = [1,1,0,...,0] with all other cells 0,
    [solveSudoku] returns false. *)
Theorem dup_row_grid_fails :
  (∀ g h, wf h → no_zeros h → keeps_givens g h → conflicts_given g h →
     ∃ s, solveSudoku g = Some (true, s)) ∧
  (wf dup_accepted ∧ ¬ consistent dup_accepted ∧
   wf conflict_full ∧ no_zeros conflict_full ∧
   keeps_givens dup_accepted conflict_full ∧ conflicts_given dup_accepted conflict_full ∧
   result_board (solveSudoku dup_accepted) = Some (true, conflict_full)) ∧
  (∃ s, solveSudoku dup_grid = Some (false, s)).
Proof.
  split_and!.
  - intros g h Hwf Hnz Hk Hconf.
    destruct (solve_fuel_terminates (S (count_zeros g)) (mkSt g []))
      as [[[] s] Hres]; [simpl; lia|exists s; exact Hres|].
    exfalso. apply (solve_fuel_fill_false _ _ _ g h Hres); cbn [board];
      [apply keeps_givens_refl|exact Hwf|exact Hnz|exact Hk|exact Hconf].
  - by_eval.
  - intros Hcons. apply (Hcons 0 0 0 1 5); [lia|lia|lia|lia|congruence|by left|reflexivity|lia|reflexivity].
  - by_eval.
  - apply findEmptyCell_None. vm_compute. reflexivity.
  - apply keeps_givensb_sound; [by_eval|vm_compute; reflexivity].
  - apply conflicts_givenb_sound. vm_compute. reflexivity.
  - vm_compute. reflexivity.
  - destruct (solve_fuel_terminates (S (count_zeros dup_grid)) (mkSt dup_grid []))
      as [[[] s] Hres]; [simpl; lia| |exists s; unfold solveSudoku; exact Hres].
    exfalso.
    assert (search_inv dup_grid dup_grid) as Hinv0.
    { split_and!; [by_eval|apply keeps_givens_refl|apply conflicts_given_refl]. }
    destruct (solve_fuel_preserves (search_inv dup_grid) (search_inv_place dup_grid)
                (S (count_zeros dup_grid)) (mkSt dup_grid []) true s Hinv0 Hres)
      as [(Hwf & Hk & Hconf) _].
    apply (dup_grid_stuck (board s)); [exact Hwf| |exact Hk|exact Hconf].
    apply findEmptyCell_None. exact (solve_fuel_true _ _ _ Hres).
Qed.

(** ** C8: the canonical puzzle is solved, into its only valid
    completion. *)
Theorem example_grid_solved :
  result_board (solveSudoku example_grid) = Some (true, example_solution) ∧
  solved example_solution ∧
  ∀ h, completion example_grid h ↔ h = example_solution.
Proof.
  assert (wf example_solution) as Hwf by by_eval.
  assert (no_zeros example_solution) as Hnz by (apply findEmptyCell_None; vm_compute; reflexivity).
  assert (consistent example_solution) as Hcons by (apply consistentb_sound; vm_compute; reflexivity).
  assert (result_board (solveSudoku example_grid) = Some (true, example_solution)) as Hres
    by (vm_compute; reflexivity).
  split_and!; [exact Hres|by apply consistent_full_solved|].
  intros h. split.
  - intros Hcomp. apply (propagate_completion 6) in Hcomp.
    assert (propagate 6 example_grid = example_solution) as Hprop by (vm_compute; reflexivity).
    rewrite Hprop in Hcomp. destruct Hcomp as (Hwfh & _ & _ & Hk).
    apply grid_ext; [done|done|]. intros i j Hi Hj.
    destruct (wf_cell _ i j Hwf Hi Hj) as (v & Hv & _).
    assert (v ≠ 0) as Hv0 by (intros ->; by apply (Hnz i j)).
    by rewrite Hv, (Hk _ _ _ Hv Hv0).
  - intros ->. split_and!; [done|done|done|].
    unfold solveSudoku in Hres.
    destruct (solve_fuel (S (count_zeros example_grid)) (mkSt example_grid []))
      as [[ok s]|] eqn:Hs; [|discriminate Hres].
    cbn [result_board fmap option_fmap option_map] in Hres.
    injection Hres as -> Hb.
    destruct (solve_fuel_preserves (keeps_givens example_grid)
                (λ b row col num Hk _ _ Hz _ _, keeps_givens_place example_grid b row col num Hk Hz)
                (S (count_zeros example_grid)) (mkSt example_grid []) true s
                (keeps_givens_refl example_grid) Hs) as [Hk _].
    by rewrite <- Hb.
Qed.

(** ** Strings and numbers *)

Lemma map_fmap_eq {A B} (f : A → B) (l : list A) : map f l = f <$> l.
Proof. induction l as [|x l IH]; [done|]. cbn. by rewrite IH. Qed.

Lemma str_digit_9 : str_digit 9 = [57%N].
Proof. reflexivity. Qed.

Lemma js_str_ge_1 c rest : js_str_ge (c :: rest) (str_digit 1) = bool_decide (49 ≤ c)%N.
Proof.
  unfold js_str_ge, str_digit. change (48 + N.of_nat 1)%N with 49%N. cbn [js_str_lt].
  destruct (decide (c = 49%N)) as [->|Hne].
  - rewrite bool_decide_eq_true_2 by done. destruct rest; reflexivity.
  - rewrite bool_decide_eq_false_2 by done.
    case_bool_decide; case_bool_decide; cbn; done || lia.
Qed.

Lemma js_str_le_9 c rest :
  js_str_le (c :: rest) (str_digit 9) = bool_decide (c < 57 ∨ (c = 57 ∧ rest = []))%N.
Proof.
  unfold js_str_le, str_digit. change (48 + N.of_nat 9)%N with 57%N. cbn [js_str_lt].
  destruct (decide (c = 57%N)) as [->|Hne].
  - rewrite bool_decide_eq_true_2 by done.
    destruct rest; cbn; symmetry; [apply bool_decide_eq_true_2|apply bool_decide_eq_false_2];
      [right; done|intros [?|[_ ?]]; [lia|done]].
  - rewrite bool_decide_eq_false_2 by done.
    case_bool_decide; case_bool_decide as E; cbn; try done.
    + exfalso. destruct E as [?|[? _]]; lia.
    + exfalso. apply E. left. lia.
Qed.

(** The test of line 73, unfolded: the empty string, ["9"], or any string
    whose first code unit is one of '1' to '8'. *)
Lemma cell_input_ok_spec v :
  cell_input_ok v = true ↔
  v = [] ∨ v = str_digit 9 ∨ ∃ c rest, v = c :: rest ∧ (49 ≤ c ≤ 56)%N.
Proof.
  destruct v as [|c rest].
  { split; [by left|done]. }
  unfold cell_input_ok. rewrite js_str_ge_1, js_str_le_9, str_digit_9.
  rewrite (bool_decide_eq_false_2 ((c :: rest) = [])) by done. cbn [orb].
  rewrite andb_true_iff, !bool_decide_eq_true. split.
  - intros [H1 [H2|[-> ->]]]; [|by right; left].
    right; right. exists c, rest. split; [done|lia].
  - intros [?|[[= -> ->]|(c' & rest' & [= <- <-] & Hc)]]; [done| |].
    + split; [lia|by right].
    + split; [lia|left; lia].
Qed.

Lemma shown_cellb_spec c : shown_cellb c = true ↔ shown_cell c.
Proof.
  unfold shown_cell, str_digit. destruct c as [|x [|y c]]; cbn [shown_cellb].
  - split; [by left|done].
  - rewrite bool_decide_eq_true. split.
    + intros Hx. right. exists (N.to_nat (x - 48)). split; [lia|]. f_equal. lia.
    + intros [?|(d & Hd & [= ->])]; [done|lia].
  - split; [done|]. intros [?|(d & _ & ?)]; done.
Qed.

Lemma cell_input_ok_single v :
  length v ≤ 1 → (cell_input_ok v = true ↔ shown_cell v).
Proof.
  intros Hlen. rewrite cell_input_ok_spec, <- shown_cellb_spec.
  destruct v as [|x [|y v]]; cbn [shown_cellb length] in *; [| |lia].
  { split; [done|by left]. }
  rewrite str_digit_9, bool_decide_eq_true. split.
  - intros [?|[[= ->]|(c & rest & [= Hxc Hr] & Hc)]]; [done|lia|subst; lia].
  - intros Hx. destruct (decide (x = 57%N)) as [->|]; [by right; left|].
    right; right. exists x, []. split; [done|lia].
Qed.

Lemma space_not_dec c : is_dec c → bool_decide (c ∈ js_space_units) = false.
Proof.
  unfold is_dec. intros Hc. apply bool_decide_eq_false_2. intros H.
  unfold js_space_units in H.
  repeat (apply elem_of_cons in H as [->|H]; [lia|]).
  by apply elem_of_nil in H.
Qed.

Lemma to_dec_digits fuel n acc :
  n < fuel → Forall is_dec acc →
  ∃ c rest, to_dec fuel n acc = c :: rest ∧ Forall is_dec (c :: rest).
Proof.
  revert n acc. induction fuel as [|f IH]; intros n acc Hn Hacc; [lia|].
  cbn [to_dec]. case_bool_decide as Hlt.
  - eexists _, _. split; [done|]. constructor; [unfold is_dec; lia|done].
  - apply IH.
    + pose proof (Nat.div_lt n 10). lia.
    + constructor; [|done]. unfold is_dec.
      pose proof (Nat.mod_upper_bound n 10). lia.
Qed.

Lemma radix_digits_dec s :
  Forall is_dec s → radix_digits 10 s = map digit_of s.
Proof.
  induction 1 as [|c s Hc Hs IH]; [done|]. cbn [radix_digits map].
  unfold digit_value. unfold is_dec in Hc.
  rewrite bool_decide_eq_true_2 by lia. rewrite bool_decide_eq_true_2 by lia.
  by rewrite IH.
Qed.

Lemma to_dec_value fuel n acc a :
  n < fuel →
  ∃ k, foldl (λ x d, x * 10 + d) a (map digit_of (to_dec fuel n acc)) =
       foldl (λ x d, x * 10 + d) (a * 10 ^ k + n) (map digit_of acc).
Proof.
  revert n acc a. induction fuel as [|f IH]; intros n acc a Hn; [lia|].
  cbn [to_dec]. case_bool_decide as Hlt.
  - exists 1. cbn [map foldl]. unfold digit_of. rewrite Nat.pow_1_r. f_equal. lia.
  - destruct (IH (n `div` 10) ((48 + N.of_nat (n `mod` 10))%N :: acc) a) as [k Hk].
    { pose proof (Nat.div_lt n 10). lia. }
    exists (S k). rewrite Hk. cbn [map foldl]. f_equal.
    unfold digit_of. rewrite Nat.pow_succ_r'.
    pose proof (Nat.div_mod n 10 ltac:(lia)).
    assert (N.to_nat (48 + N.of_nat (n `mod` 10) - 48) = n `mod` 10) as -> by lia.
    nia.
Qed.

(** [parseInt] reads back what [toString] wrote. *)
Lemma parseInt_toString n : parseInt (number_toString n) = Num false n.
Proof.
  unfold number_toString.
  destruct (to_dec_digits (S n) n [] ltac:(lia) ltac:(constructor)) as (c & rest & Heq & Hall).
  destruct (to_dec_value (S n) n [] 0 ltac:(lia)) as [k Hk].
  rewrite Heq in Hk |- *. cbn [map foldl] in Hk.
  pose proof (Forall_inv Hall) as Hc.
  unfold parseInt. cbn [trim_start]. rewrite (space_not_dec c Hc). cbn [head tail].
  unfold is_dec in Hc.
  rewrite (bool_decide_eq_false_2 (Some c = Some 45%N)) by (intros [= ->]; lia).
  rewrite (bool_decide_eq_false_2 (Some c = Some 45%N ∨ Some c = Some 43%N))
    by (intros [[= ->]|[= ->]]; lia).
  assert (strip_hex (c :: rest) = (10, c :: rest)) as ->.
  { destruct rest as [|x rest]; [done|]. cbn [strip_hex].
    apply Forall_inv_tail, Forall_inv in Hall. unfold is_dec in Hall.
    rewrite bool_decide_eq_false_2; [done|]. lia. }
  rewrite (radix_digits_dec _ Hall). cbn [map]. unfold digits_to_nat. cbn [foldl].
  rewrite Hk. cbn [foldl]. f_equal; lia.
Qed.

Lemma number_toString_digit d : d < 10 → number_toString d = str_digit d.
Proof. intros Hd. unfold number_toString. cbn [to_dec]. by rewrite bool_decide_eq_true_2. Qed.

Lemma parseInt_str_digit d : d ≤ 9 → parseInt (str_digit d) = Num false d.
Proof. intros Hd. rewrite <- number_toString_digit by lia. apply parseInt_toString. Qed.

Lemma number_toString_nonempty n : number_toString n ≠ [].
Proof.
  unfold number_toString.
  destruct (to_dec_digits (S n) n [] ltac:(lia) ltac:(constructor)) as (c & rest & -> & _).
  done.
Qed.

Lemma cell_to_number_toString n : cell_to_number (number_toString n) = Num false n.
Proof.
  unfold cell_to_number. rewrite bool_decide_eq_false_2 by apply number_toString_nonempty.
  apply parseInt_toString.
Qed.

Lemma to_grid_inv nb g : to_grid nb = Some g → nb = map (map (Num false)) g.
Proof.
  unfold to_grid. intros H. apply mapM_Some in H.
  induction H as [|r gr nb g Hr H IH]; [done|]. cbn [map]. f_equal; [|exact IH].
  apply mapM_Some in Hr. clear -Hr.
  induction Hr as [|x n r ns Hx Hr IH]; [done|]. cbn [map]. f_equal; [|exact IH].
  destruct x as [|[] m]; cbn in Hx; congruence.
Qed.

Lemma to_grid_to_strings h : to_grid (to_numberBoard (to_strings h)) = Some h.
Proof.
  unfold to_grid, to_numberBoard, to_strings. rewrite !map_fmap_eq, <- list_fmap_compose.
  apply mapM_fmap_Some. intros r. unfold compose. rewrite !map_fmap_eq, <- list_fmap_compose.
  apply mapM_fmap_Some. intros n. unfold compose. by rewrite cell_to_number_toString.
Qed.

(** ** The store of row arrays *)

Lemma rows_of_fresh rows u : rows_of (setBoard_fresh rows u) = Some rows.
Proof.
  unfold rows_of, setBoard_fresh. cbn [ui_board ui_heap].
  generalize (ui_heap u) as h. induction rows as [|r rows IH]; intros h; [done|].
  cbn [length seq mapM].
  rewrite lookup_app_r, Nat.sub_diag by lia. cbn [lookup list_lookup].
  specialize (IH (h ++ [r])). rewrite length_app, <- app_assoc in IH. cbn [length app] in IH.
  rewrite Nat.add_1_r in IH. rewrite IH. reflexivity.
Qed.

Lemma rows_of_mkUI u loading p al :
  rows_of (mkUI (ui_board u) (ui_heap u) loading p al) = rows_of u.
Proof. reflexivity. Qed.

Lemma rows_of_update (ls : list nat) (h : list (list jsstr)) row l r' rows :
  NoDup ls → ls !! row = Some l → l < length h →
  mapM (λ l, h !! l) ls = Some rows →
  mapM (λ l', <[l := r']> h !! l') ls = Some (<[row := r']> rows).
Proof.
  intros Hnd Hl Hlt Hrows. apply mapM_Some in Hrows. apply mapM_Some.
  apply Forall2_lookup. intros i. pose proof (proj1 (Forall2_lookup _ _ _) Hrows i) as Hi.
  destruct (decide (i = row)) as [->|Hne].
  - rewrite Hl in Hi |- *.
    destruct (rows !! row) as [y|] eqn:Hy; [|inversion Hi].
    rewrite list_lookup_insert_eq by (by apply lookup_lt_Some with y).
    constructor. by rewrite list_lookup_insert_eq.
  - rewrite list_lookup_insert_ne by done.
    destruct (ls !! i) as [l'|] eqn:Hl'; destruct (rows !! i) as [y|];
      inversion Hi; subst; constructor.
    rewrite list_lookup_insert_ne; [assumption|]. intros E. subst.
    apply Hne. eapply NoDup_lookup; eauto.
Qed.

(** ** The board as the solver reads it *)

Lemma board_shapeb_spec rows : board_shapeb rows = true → board_shape rows.
Proof.
  unfold board_shapeb, board_shape. rewrite andb_true_iff, forallb_forall.
  intros [Hlen Hrows]. split; [by apply bool_decide_eq_true in Hlen|].
  apply Forall_forall. intros r Hr. apply list_elem_of_In, Hrows in Hr.
  apply andb_true_iff in Hr as [Hl Hcs]. split; [by apply bool_decide_eq_true in Hl|].
  apply Forall_forall. intros c Hc. apply shown_cellb_spec.
  rewrite forallb_forall in Hcs. by apply Hcs, list_elem_of_In.
Qed.

Lemma cell_to_number_shown c : shown_cell c → cell_to_number c = Num false (shown_value c).
Proof.
  intros [->|(d & Hd & ->)]; [reflexivity|].
  unfold cell_to_number. rewrite bool_decide_eq_false_2 by done.
  rewrite parseInt_str_digit by lia. unfold shown_value, str_digit, digit_of. f_equal. lia.
Qed.

Lemma shown_value_le c : shown_cell c → shown_value c ≤ 9.
Proof. intros [->|(d & Hd & ->)]; cbn; [lia|]. unfold digit_of. lia. Qed.

Lemma to_grid_shape rows :
  board_shape rows → to_grid (to_numberBoard rows) = Some (map (map shown_value) rows).
Proof.
  intros [_ Hrows]. unfold to_grid, to_numberBoard.
  induction Hrows as [|r rows [_ Hr] Hrows IH]; [done|].
  cbn [map mapM].
  assert (mapM number_as_nat (map cell_to_number r) = Some (map shown_value r)) as ->.
  { clear -Hr. induction Hr as [|c r Hc Hr IH]; [done|].
    cbn [map mapM]. rewrite (cell_to_number_shown c Hc). cbn [number_as_nat].
    rewrite IH. reflexivity. }
  rewrite IH. reflexivity.
Qed.

Lemma shape_wf rows : board_shape rows → wf (map (map shown_value) rows).
Proof.
  intros [Hlen Hrows]. split; [by rewrite length_map|].
  rewrite map_fmap_eq. apply Forall_fmap. eapply Forall_impl; [exact Hrows|].
  intros r [Hl Hr]. cbn. split; [by rewrite length_map|].
  rewrite map_fmap_eq. apply Forall_fmap. eapply Forall_impl; [exact Hr|].
  intros c Hc. by apply shown_value_le.
Qed.

Lemma lookup_map_map {A B} (f : A → B) (rows : list (list A)) i j :
  map (map f) rows !! i ≫= (λ r, r !! j) = f <$> (rows !! i ≫= (λ r, r !! j)).
Proof.
  rewrite map_fmap_eq, list_lookup_fmap.
  destruct (rows !! i) as [r|]; [|done]. cbn. by rewrite map_fmap_eq, list_lookup_fmap.
Qed.

Lemma to_strings_shape h : wf h → no_zeros h → board_shape (to_strings h).
Proof.
  intros [Hlen Hrows] Hnz. split; [unfold to_strings; by rewrite length_map|].
  apply Forall_lookup. intros i r Hr.
  unfold to_strings in Hr. rewrite map_fmap_eq, list_lookup_fmap in Hr.
  destruct (h !! i) as [r0|] eqn:Hr0; [|done]. injection Hr as <-.
  pose proof (lookup_lt_Some _ _ _ Hr0) as Hi.
  destruct (Forall_lookup_1 _ _ _ _ Hrows Hr0) as [Hl Hvs].
  split; [by rewrite length_map|].
  apply Forall_lookup. intros j c Hc. rewrite map_fmap_eq, list_lookup_fmap in Hc.
  destruct (r0 !! j) as [v|] eqn:Hv; [|done]. injection Hc as <-.
  pose proof (lookup_lt_Some _ _ _ Hv) as Hj.
  pose proof (Forall_lookup_1 _ _ _ _ Hvs Hv) as Hle. cbv beta in Hle.
  assert (v ≠ 0) as Hv0.
  { intros ->. apply (Hnz i j); [lia|lia|]. unfold cell. by rewrite Hr0. }
  right. exists v. split; [lia|]. apply number_toString_digit. lia.
Qed.

(** ** [handleCellChange] on the store *)

Lemma handleCellChange_accept u rows row col r value :
  rows_of u = Some rows → NoDup (ui_board u) → rows !! row = Some r → col < length r →
  cell_input_ok value = true →
  ∃ u', handleCellChange row col value u = Some u' ∧
    rows_of u' = Some (<[row := <[col := value]> r]> rows) ∧
    ui_board u' = ui_board u ∧ isLoading u' = isLoading u ∧
    pending u' = pending u ∧ alerts u' = alerts u.
Proof.
  intros Hrows Hnd Hr Hcol Hok.
  pose proof Hrows as Hrows'. unfold rows_of in Hrows'. apply mapM_Some in Hrows'.
  destruct (Forall2_lookup_r _ _ _ _ _ Hrows' Hr) as (l & Hl & Hhl).
  unfold handleCellChange. rewrite Hok, Hl, Hhl, bool_decide_eq_true_2 by done.
  eexists. split; [reflexivity|]. split_and!; try reflexivity.
  unfold rows_of. cbn [ui_board ui_heap].
  apply rows_of_update; [done|done|by apply lookup_lt_Some with r|].
  by apply mapM_Some.
Qed.

Lemma handleCellChange_reject row col value u :
  cell_input_ok value = false → handleCellChange row col value u = Some u.
Proof. intros Hok. unfold handleCellChange. by rewrite Hok. Qed.

(** ** What a run of the solver guarantees *)

Lemma solveSudoku_some g : ∃ res, solveSudoku g = Some res.
Proof. apply solve_fuel_terminates. cbn [board]. lia. Qed.

Lemma solve_result_facts g ok s :
  wf g → solveSudoku g = Some (ok, s) →
  wf (board s) ∧ keeps_givens g (board s) ∧
  (ok = true → no_zeros (board s) ∧ (consistent g → solved (board s))) ∧
  (ok = false → board s = g ∧ ∀ h, ¬ completion g h).
Proof.
  intros Hwf Hs. unfold solveSudoku in Hs.
  destruct (solve_fuel_preserves wf
              (λ b row col num Hb _ _ _ Hn _, set_wf b row col num Hb (proj2 Hn))
              (S (count_zeros g)) (mkSt g []) ok s Hwf Hs) as [Hwf' _].
  destruct (solve_fuel_preserves (keeps_givens g)
              (λ b row col num Hk _ _ Hz _ _, keeps_givens_place g b row col num Hk Hz)
              (S (count_zeros g)) (mkSt g []) ok s (keeps_givens_refl g) Hs) as [Hk _].
  split_and!; [exact Hwf'|exact Hk| |].
  - intros ->. assert (no_zeros (board s)) as Hnz.
    { apply findEmptyCell_None. exact (solve_fuel_true _ _ _ Hs). }
    split; [exact Hnz|]. intros Hcons.
    destruct (solve_fuel_preserves wf_consistent wf_consistent_place
                (S (count_zeros g)) (mkSt g []) true s (conj Hwf Hcons) Hs) as [[_ Hcons'] _].
    by apply consistent_full_solved.
  - intros ->. split; [exact (solve_fuel_restores _ _ _ Hs)|].
    intros h Hh. exact (solve_fuel_complete _ _ _ h Hs Hh).
Qed.

Lemma completion_consistent g h : completion g h → consistent g.
Proof.
  intros (_ & _ & Hcons & Hk) i j i' j' v Hi Hj Hi' Hj' Hne Hu Hv Hv0 Hv'.
  apply (Hcons i j i' j' v); try done; by apply Hk.
Qed.

(** ** The invariant of the component *)

Lemma fresh_inv rows u : ui_inv u → board_shape rows → ui_inv (setBoard_fresh rows u).
Proof.
  intros (_ & _ & Hlp & Hp) Hshape. split_and!.
  - exists rows. split; [apply rows_of_fresh|done].
  - apply NoDup_seq.
  - exact Hlp.
  - exact Hp.
Qed.

Lemma initial_inv : ui_inv initial_ui.
Proof.
  split_and!.
  - exists empty_rows. split; [apply rows_of_fresh|apply board_shapeb_spec; vm_compute; reflexivity].
  - apply NoDup_seq.
  - cbn. split; [done|]. intros [? [=]].
  - intros nb [=].
Qed.

Lemma example_rows_shape : board_shape example_rows.
Proof. apply board_shapeb_spec. vm_compute. reflexivity. Qed.

Lemma empty_rows_shape : board_shape empty_rows.
Proof. apply board_shapeb_spec. vm_compute. reflexivity. Qed.

Lemma rendered_spec u row col :
  rendered u row col = true →
  ∃ rows r, rows_of u = Some rows ∧ rows !! row = Some r ∧ col < length r.
Proof.
  unfold rendered. destruct (rows_of u) as [rows|] eqn:Hrows; [|done].
  cbn [mbind option_bind]. destruct (rows !! row) as [r|] eqn:Hr; [|done].
  intros H. apply bool_decide_eq_true in H.
  exists rows, r. split_and!; [reflexivity|exact Hr|exact H].
Qed.

Lemma dispatch_inv e u : ui_inv u → ∃ u', dispatch e u = Some u' ∧ ui_inv u'.
Proof.
  intros Hinv. destruct Hinv as ((rows & Hrows & Hshape) & Hnd & Hlp & Hp) eqn:Hinv'. clear Hinv'.
  destruct e as [row col value| | | |]; cbn [dispatch].
  - destruct (negb (isLoading u) && rendered u row col && bool_decide (length value ≤ 1)) eqn:Hen;
      [|by exists u].
    apply andb_true_iff in Hen as [Hen Hlen]. apply andb_true_iff in Hen as [_ Hrend].
    apply bool_decide_eq_true in Hlen.
    destruct (rendered_spec u row col Hrend) as (rows' & r & Hrows' & Hr & Hcol).
    rewrite Hrows in Hrows'. injection Hrows' as <-.
    destruct (cell_input_ok value) eqn:Hok; [|exists u; by rewrite handleCellChange_reject].
    destruct (handleCellChange_accept u rows row col r value Hrows Hnd Hr Hcol Hok)
      as (u' & Hu' & Hrows' & Hb & Hl & Hpe & _).
    exists u'. split; [exact Hu'|]. split_and!.
    + eexists. split; [exact Hrows'|].
      destruct Hshape as [Hlen9 Hall]. split; [by rewrite length_insert|].
      apply Forall_insert; [exact Hall|].
      destruct (Forall_lookup_1 _ _ _ _ Hall Hr) as [Hrl Hrc].
      split; [by rewrite length_insert|].
      apply Forall_insert; [exact Hrc|]. by apply cell_input_ok_single.
    + by rewrite Hb.
    + by rewrite Hl, Hpe.
    + rewrite Hpe. exact Hp.
  - destruct (isLoading u) eqn:Hload; [by exists u|].
    unfold handleSolve. rewrite Hrows. eexists. split; [reflexivity|]. split_and!.
    + exists rows. split; [exact Hrows|exact Hshape].
    + exact Hnd.
    + cbn. split; [by eexists|done].
    + cbn. intros nb [= <-]. exists (map (map shown_value) rows).
      split; [by apply to_grid_shape|by apply shape_wf].
  - destruct (isLoading u); [by exists u|].
    eexists. split; [reflexivity|]. by apply fresh_inv; [|apply empty_rows_shape].
  - destruct (isLoading u); [by exists u|].
    eexists. split; [reflexivity|]. by apply fresh_inv; [|apply example_rows_shape].
  - destruct (pending u) as [nb|] eqn:Hpend; [|by exists u].
    destruct (Hp nb eq_refl) as (g & Hg & Hwf).
    unfold solve_callback. rewrite Hg.
    destruct (solveSudoku_some g) as [[ok s] Hs]. rewrite Hs.
    destruct (solve_result_facts g ok s Hwf Hs) as (Hwf' & _ & Htrue & _).
    destruct ok.
    + destruct (Htrue eq_refl) as [Hnz _].
      eexists. split; [reflexivity|]. split_and!.
      * exists (to_strings (board s)). split.
        -- by rewrite rows_of_mkUI, rows_of_fresh.
        -- by apply to_strings_shape.
      * apply NoDup_seq.
      * cbn. split; [done|]. intros [? [=]].
      * intros nb' [=].
    + eexists. split; [reflexivity|]. split_and!.
      * exists rows. split; [by rewrite rows_of_mkUI|exact Hshape].
      * exact Hnd.
      * cbn. split; [done|]. intros [? [=]].
      * intros nb' [=].
Qed.

Lemma run_inv es u : ui_inv u → ∃ u', run es u = Some u' ∧ ui_inv u'.
Proof.
  revert u. induction es as [|e es IH]; intros u Hinv; [by exists u|].
  destruct (dispatch_inv e u Hinv) as (u1 & Hu1 & Hinv1).
  cbn [run]. rewrite Hu1. by apply IH.
Qed.

Lemma reachable_inv u : reachable u → ui_inv u.
Proof.
  intros [es Hes]. destruct (run_inv es initial_ui initial_inv) as (u' & Hu' & Hinv).
  congruence.
Qed.

Lemma run_cons e es u u1 : dispatch e u = Some u1 → run (e :: es) u = run es u1.
Proof. intros H. cbn [run]. by rewrite H. Qed.

(** One click on "Solve Puzzle", then the timer. *)
Lemma solve_click_run u rows :
  ui_inv u → isLoading u = false → rows_of u = Some rows →
  ∃ g ok s u', to_grid (to_numberBoard rows) = Some g ∧ g = map (map shown_value) rows ∧
    solveSudoku g = Some (ok, s) ∧ run [SolveClick; TimerFires] u = Some u' ∧
    isLoading u' = false ∧ pending u' = None ∧
    rows_of u' = Some (if ok then to_strings (board s) else rows) ∧
    alerts u' = (if ok then alerts u else alerts u ++ [no_solution_msg]).
Proof.
  intros ((rows' & Hrows' & Hshape) & _) Hload Hrows.
  rewrite Hrows in Hrows'. injection Hrows' as <-.
  pose proof (to_grid_shape rows Hshape) as Hg.
  destruct (solveSudoku_some (map (map shown_value) rows)) as [[ok s] Hs].
  assert (dispatch SolveClick u =
            Some (mkUI (ui_board u) (ui_heap u) true (Some (to_numberBoard rows)) (alerts u)))
    as Hd1 by (cbn [dispatch]; rewrite Hload; unfold handleSolve; by rewrite Hrows).
  destruct ok.
  - eexists _, true, s, _. split_and!; [exact Hg|reflexivity|exact Hs| | | | |].
    + rewrite (run_cons _ _ _ _ Hd1). cbn [run dispatch pending].
      unfold solve_callback. rewrite Hg, Hs. reflexivity.
    + reflexivity.
    + reflexivity.
    + by rewrite rows_of_mkUI, rows_of_fresh.
    + reflexivity.
  - eexists _, false, s, _. split_and!; [exact Hg|reflexivity|exact Hs| | | | |].
    + rewrite (run_cons _ _ _ _ Hd1). cbn [run dispatch pending].
      unfold solve_callback. rewrite Hg, Hs. reflexivity.
    + reflexivity.
    + reflexivity.
    + by rewrite rows_of_mkUI.
    + reflexivity.
Qed.

Lemma timer_fires_clears u :
  ui_inv u → ∃ u', dispatch TimerFires u = Some u' ∧ isLoading u' = false ∧ pending u' = None.
Proof.
  intros (_ & _ & Hlp & Hp). cbn [dispatch].
  destruct (pending u) as [nb|] eqn:Hpend.
  - destruct (Hp nb eq_refl) as (g & Hg & _).
    unfold solve_callback. rewrite Hg.
    destruct (solveSudoku_some g) as [[[] s] Hs]; rewrite Hs; by eexists.
  - exists u. split_and!; [done| |done].
    destruct (isLoading u) eqn:Hl; [|done]. destruct (proj1 Hlp eq_refl). discriminate.
Qed.

(** * The component *)

(** ** X1: the test of [handleCellChange] (line 73) accepts the empty
    string, ["9"], and every string whose first character is one of 1-8,
    such as ["10"] or ["1a"]. *)
Theorem handleCellChange_accepts (value : jsstr) :
  cell_input_ok value = true ↔
  value = [] ∨ value = str_digit 9 ∨ ∃ c rest, value = c :: rest ∧ (49 ≤ c ≤ 56)%N.
Proof. apply cell_input_ok_spec. Qed.

(** ** X2: on at most one code unit, as the inputs deliver
    ([maxLength="1"]), the test accepts exactly the empty string and the
    digits 1-9. *)
Theorem handleCellChange_single_char (value : jsstr) :
  length value ≤ 1 →
  (cell_input_ok value = true ↔ value = [] ∨ ∃ d, 1 ≤ d ≤ 9 ∧ value = str_digit d).
Proof. apply cell_input_ok_single. Qed.

Lemma handleCellChange_single_char_witness :
  length (str_digit 5) ≤ 1 ∧
  (cell_input_ok (str_digit 5) = true ↔
     str_digit 5 = [] ∨ ∃ d, 1 ≤ d ≤ 9 ∧ str_digit 5 = str_digit d).
Proof.
  assert (length (str_digit 5) ≤ 1) as H by (cbn; lia).
  split; [exact H|exact (handleCellChange_single_char (str_digit 5) H)].
Defined.

(** ** X3: on a board of distinct row arrays, an accepted value changes
    exactly the cell [(row, col)] and nothing else of the state; a rejected
    value changes nothing. *)
Theorem handleCellChange_update u rows row col r value :
  rows_of u = Some rows → NoDup (ui_board u) → rows !! row = Some r → col < length r →
  (cell_input_ok value = true →
     ∃ u', handleCellChange row col value u = Some u' ∧
       rows_of u' = Some (<[row := <[col := value]> r]> rows) ∧
       isLoading u' = isLoading u ∧ pending u' = pending u ∧ alerts u' = alerts u) ∧
  (cell_input_ok value = false → handleCellChange row col value u = Some u).
Proof.
  intros Hrows Hnd Hr Hcol. split.
  - intros Hok.
    destruct (handleCellChange_accept u rows row col r value Hrows Hnd Hr Hcol Hok)
      as (u' & Hu' & Hrows' & _ & Hl & Hp & Ha).
    by exists u'.
  - apply handleCellChange_reject.
Qed.

Lemma handleCellChange_update_witness :
  rows_of initial_ui = Some empty_rows ∧ NoDup (ui_board initial_ui) ∧
  empty_rows !! 0 = Some (replicate 9 []) ∧ 0 < length (replicate 9 (@nil N)) ∧
  ((cell_input_ok (str_digit 5) = true →
     ∃ u', handleCellChange 0 0 (str_digit 5) initial_ui = Some u' ∧
       rows_of u' = Some (<[0 := <[0 := str_digit 5]> (replicate 9 [])]> empty_rows) ∧
       isLoading u' = isLoading initial_ui ∧ pending u' = pending initial_ui ∧
       alerts u' = alerts initial_ui) ∧
   (cell_input_ok (str_digit 5) = false →
     handleCellChange 0 0 (str_digit 5) initial_ui = Some initial_ui)).
Proof.
  assert (rows_of initial_ui = Some empty_rows) as H1 by (vm_compute; reflexivity).
  assert (NoDup (ui_board initial_ui)) as H2 by (unfold initial_ui, setBoard_fresh; cbn [ui_board ui_heap length]; apply NoDup_seq).
  assert (empty_rows !! 0 = Some (replicate 9 [])) as H3 by reflexivity.
  assert (0 < length (replicate 9 (@nil N))) as H4 by (cbn; lia).
  split_and!; [exact H1|exact H2|exact H3|exact H4|..];
    [exact (proj1 (handleCellChange_update initial_ui empty_rows 0 0 _ (str_digit 5) H1 H2 H3 H4))
    |exact (proj2 (handleCellChange_update initial_ui empty_rows 0 0 _ (str_digit 5) H1 H2 H3 H4))].
Defined.

(** ** X4: a 9x9 board of numbers 0-9, as the solver leaves it, turned
    into strings for display ([toString], lines 92-94) shows one digit per
    cell, and read back as [handleSolve] reads it ([parseInt], lines
    84-86) is the same board. *)
Theorem numbers_strings_roundtrip (h : grid) :
  wf h →
  Forall (Forall (λ c, ∃ d, d ≤ 9 ∧ c = str_digit d)) (to_strings h) ∧
  to_grid (to_numberBoard (to_strings h)) = Some h.
Proof.
  intros [_ Hrows]. split; [|apply to_grid_to_strings].
  unfold to_strings. apply Forall_map.
  eapply Forall_impl; [exact Hrows|]. intros r [_ Hr].
  apply Forall_map. eapply Forall_impl; [exact Hr|]. intros v Hv. cbv beta in Hv.
  exists v. split; [exact Hv|]. apply number_toString_digit. lia.
Qed.

Lemma numbers_strings_roundtrip_witness :
  wf example_solution ∧
  Forall (Forall (λ c, ∃ d, d ≤ 9 ∧ c = str_digit d)) (to_strings example_solution) ∧
  to_grid (to_numberBoard (to_strings example_solution)) = Some example_solution.
Proof.
  assert (wf example_solution) as H by by_eval.
  exact (conj H (numbers_strings_roundtrip example_solution H)).
Defined.

(** ** X5: [handleSolve] reads a board of empty cells and digits 1-9 as a
    well-formed grid: an empty cell as 0, a digit as its value. *)
Theorem handleSolve_reads_board (rows : list (list jsstr)) :
  board_shape rows →
  ∃ g, to_grid (to_numberBoard rows) = Some g ∧ wf g ∧
    ∀ i j, (rows !! i ≫= (λ r, r !! j) = Some [] → cell g i j = Some 0) ∧
           (∀ d, rows !! i ≫= (λ r, r !! j) = Some (str_digit d) → cell g i j = Some d).
Proof.
  intros Hshape. exists (map (map shown_value) rows). split_and!.
  - by apply to_grid_shape.
  - by apply shape_wf.
  - intros i j. unfold cell. rewrite lookup_map_map. split.
    + intros ->. reflexivity.
    + intros d ->. cbn. unfold digit_of. f_equal. lia.
Qed.

Lemma handleSolve_reads_board_witness :
  board_shape example_rows ∧
  ∃ g, to_grid (to_numberBoard example_rows) = Some g ∧ wf g ∧
    ∀ i j, (example_rows !! i ≫= (λ r, r !! j) = Some [] → cell g i j = Some 0) ∧
           (∀ d, example_rows !! i ≫= (λ r, r !! j) = Some (str_digit d) → cell g i j = Some d).
Proof.
  assert (board_shape example_rows) as H by (apply board_shapeb_spec; vm_compute; reflexivity).
  split; [exact H|exact (handleSolve_reads_board example_rows H)].
Defined.

(** ** X6: in every state the component reaches, the board has 9 rows of
    9 cells, each empty or one digit 1-9, and its row arrays are distinct
    objects. *)
Theorem reachable_board_shape (u : UI) :
  reachable u → ∃ rows, rows_of u = Some rows ∧ board_shape rows ∧ NoDup (ui_board u).
Proof.
  intros Hr. destruct (reachable_inv u Hr) as ((rows & Hrows & Hshape) & Hnd & _).
  by exists rows.
Qed.

Lemma reachable_board_shape_witness :
  reachable sample_state ∧
  ∃ rows, rows_of sample_state = Some rows ∧ board_shape rows ∧ NoDup (ui_board sample_state).
Proof.
  assert (reachable sample_state) as H by (exists sample_events; vm_compute; reflexivity).
  split; [exact H|exact (reachable_board_shape sample_state H)].
Defined.

(** ** X7: in every reached state, the controls are disabled exactly while
    a solve is scheduled, and the timer callback always enables them
    again. *)
Theorem loading_until_timer (u : UI) :
  reachable u →
  (isLoading u = true ↔ is_Some (pending u)) ∧
  ∃ u', dispatch TimerFires u = Some u' ∧ isLoading u' = false ∧ pending u' = None.
Proof.
  intros Hr. pose proof (reachable_inv u Hr) as Hinv.
  split; [apply Hinv|]. by apply timer_fires_clears.
Qed.

Lemma loading_until_timer_witness :
  reachable (mkUI (ui_board initial_ui) (ui_heap initial_ui) true
               (Some (to_numberBoard empty_rows)) []) ∧
  (isLoading (mkUI (ui_board initial_ui) (ui_heap initial_ui) true
               (Some (to_numberBoard empty_rows)) []) = true ↔
   is_Some (pending (mkUI (ui_board initial_ui) (ui_heap initial_ui) true
               (Some (to_numberBoard empty_rows)) []))) ∧
  ∃ u', dispatch TimerFires (mkUI (ui_board initial_ui) (ui_heap initial_ui) true
               (Some (to_numberBoard empty_rows)) []) = Some u' ∧
        isLoading u' = false ∧ pending u' = None.
Proof.
  assert (reachable (mkUI (ui_board initial_ui) (ui_heap initial_ui) true
               (Some (to_numberBoard empty_rows)) [])) as H
    by (exists [SolveClick]; vm_compute; reflexivity).
  exact (conj H (loading_until_timer _ H)).
Defined.

(** ** X8: no sequence of user events and timer callbacks makes a handler
    fail, and the board scheduled for the solver is always a 9x9 array of
    numbers 0-9 (no [NaN], no negative or larger number). *)
Theorem run_never_fails (es : list event) :
  ∃ u, run es initial_ui = Some u ∧
    ∀ nb, pending u = Some nb → ∃ g, nb = map (map (Num false)) g ∧ wf g.
Proof.
  destruct (run_inv es initial_ui initial_inv) as (u & Hu & Hinv).
  exists u. split; [exact Hu|]. intros nb Hp.
  destruct (proj2 (proj2 (proj2 Hinv)) nb Hp) as (g & Hg & Hwf).
  exists g. split; [by apply to_grid_inv|exact Hwf].
Qed.

(** ** X9: "Solve Puzzle" followed by its timer either shows a full board
    of digits that keeps every entered digit (a valid solution when the
    entered digits do not conflict), or leaves the board as it was and
    alerts "No solution exists for this puzzle!"; the alert comes only when
    the entered puzzle has no valid completion.  The controls are enabled
    again in both cases. *)
Theorem solve_click_outcome (u : UI) (rows : list (list jsstr)) :
  reachable u → isLoading u = false → rows_of u = Some rows →
  ∃ g u', to_grid (to_numberBoard rows) = Some g ∧ run [SolveClick; TimerFires] u = Some u' ∧
    isLoading u' = false ∧ pending u' = None ∧
    ((∃ h, rows_of u' = Some (to_strings h) ∧ alerts u' = alerts u ∧
        wf h ∧ no_zeros h ∧ keeps_givens g h ∧ (consistent g → solved h)) ∨
     (rows_of u' = Some rows ∧ alerts u' = alerts u ++ [no_solution_msg] ∧
        ∀ h, ¬ completion g h)).
Proof.
  intros Hr Hload Hrows. pose proof (reachable_inv u Hr) as Hinv.
  destruct (solve_click_run u rows Hinv Hload Hrows)
    as (g & ok & s & u' & Hg & Hgeq & Hs & Hrun & Hl & Hp & Hrows' & Ha).
  destruct Hinv as ((rows' & Hrows0 & Hshape) & _).
  rewrite Hrows in Hrows0. injection Hrows0 as <-.
  assert (wf g) as Hwf by (rewrite Hgeq; by apply shape_wf).
  destruct (solve_result_facts g ok s Hwf Hs) as (Hwf' & Hk & Htrue & Hfalse).
  exists g, u'. split_and!; [exact Hg|exact Hrun|exact Hl|exact Hp|].
  destruct ok.
  - left. destruct (Htrue eq_refl) as [Hnz Hsol]. exists (board s). by split_and!.
  - right. destruct (Hfalse eq_refl) as [_ Hnc]. by split_and!.
Qed.

Lemma solve_click_outcome_witness :
  reachable (loadExample initial_ui) ∧ isLoading (loadExample initial_ui) = false ∧
  rows_of (loadExample initial_ui) = Some example_rows ∧
  ∃ g u', to_grid (to_numberBoard example_rows) = Some g ∧
    run [SolveClick; TimerFires] (loadExample initial_ui) = Some u' ∧
    isLoading u' = false ∧ pending u' = None ∧
    ((∃ h, rows_of u' = Some (to_strings h) ∧ alerts u' = alerts (loadExample initial_ui) ∧
        wf h ∧ no_zeros h ∧ keeps_givens g h ∧ (consistent g → solved h)) ∨
     (rows_of u' = Some example_rows ∧
        alerts u' = alerts (loadExample initial_ui) ++ [no_solution_msg] ∧
        ∀ h, ¬ completion g h)).
Proof.
  assert (reachable (loadExample initial_ui)) as H1 by (exists [ExampleClick]; reflexivity).
  assert (isLoading (loadExample initial_ui) = false) as H2 by reflexivity.
  assert (rows_of (loadExample initial_ui) = Some example_rows) as H3 by (vm_compute; reflexivity).
  split_and!; [exact H1|exact H2|exact H3|].
  exact (solve_click_outcome _ _ H1 H2 H3).
Defined.

(** ** X10: when the entered puzzle has a valid completion, "Solve Puzzle"
    followed by its timer shows a solved board that keeps every entered
    digit, and raises no alert. *)
Theorem solve_click_solvable (u : UI) (rows : list (list jsstr)) (g h : grid) :
  reachable u → isLoading u = false → rows_of u = Some rows →
  to_grid (to_numberBoard rows) = Some g → completion g h →
  ∃ u' h', run [SolveClick; TimerFires] u = Some u' ∧ rows_of u' = Some (to_strings h') ∧
    solved h' ∧ keeps_givens g h' ∧ alerts u' = alerts u ∧ isLoading u' = false.
Proof.
  intros Hr Hload Hrows Hg Hcomp. pose proof (reachable_inv u Hr) as Hinv.
  destruct (solve_click_run u rows Hinv Hload Hrows)
    as (g' & ok & s & u' & Hg' & Hgeq & Hs & Hrun & Hl & _ & Hrows' & Ha).
  rewrite Hg in Hg'. injection Hg' as <-.
  destruct Hinv as ((rows' & Hrows0 & Hshape) & _).
  rewrite Hrows in Hrows0. injection Hrows0 as <-.
  assert (wf g) as Hwf by (rewrite Hgeq; by apply shape_wf).
  destruct (solve_result_facts g ok s Hwf Hs) as (_ & Hk & Htrue & Hfalse).
  destruct ok.
  - destruct (Htrue eq_refl) as [_ Hsol].
    exists u', (board s). split_and!; try done.
    by apply Hsol, (completion_consistent g h).
  - destruct (Hfalse eq_refl) as [_ Hnc]. by destruct (Hnc h).
Qed.

Lemma solve_click_solvable_witness :
  reachable (loadExample initial_ui) ∧ isLoading (loadExample initial_ui) = false ∧
  rows_of (loadExample initial_ui) = Some example_rows ∧
  to_grid (to_numberBoard example_rows) = Some example_grid ∧
  completion example_grid example_solution ∧
  ∃ u' h', run [SolveClick; TimerFires] (loadExample initial_ui) = Some u' ∧
    rows_of u' = Some (to_strings h') ∧ solved h' ∧ keeps_givens example_grid h' ∧
    alerts u' = alerts (loadExample initial_ui) ∧ isLoading u' = false.
Proof.
  assert (reachable (loadExample initial_ui)) as H1 by (exists [ExampleClick]; reflexivity).
  assert (isLoading (loadExample initial_ui) = false) as H2 by reflexivity.
  assert (rows_of (loadExample initial_ui) = Some example_rows) as H3 by (vm_compute; reflexivity).
  assert (to_grid (to_numberBoard example_rows) = Some example_grid) as H4
    by (vm_compute; reflexivity).
  assert (completion example_grid example_solution) as H5.
  { split_and!.
    - by_eval.
    - apply findEmptyCell_None. vm_compute. reflexivity.
    - apply consistentb_sound. vm_compute. reflexivity.
    - apply keeps_givensb_sound; [by_eval|vm_compute; reflexivity]. }
  split_and!; [exact H1|exact H2|exact H3|exact H4|exact H5|].
  exact (solve_click_solvable _ _ _ _ H1 H2 H3 H4 H5).
Defined.

(** ** X11: from any reached state with the controls enabled, "Load
    Example", "Solve Puzzle" and the timer show the solution of the
    example, without alert. *)
Theorem example_click_solve (u : UI) :
  reachable u → isLoading u = false →
  ∃ u', run [ExampleClick; SolveClick; TimerFires] u = Some u' ∧
    rows_of u' = Some (to_strings example_solution) ∧ alerts u' = alerts u ∧
    isLoading u' = false.
Proof.
  intros Hr Hload. pose proof (reachable_inv u Hr) as Hinv.
  assert (dispatch ExampleClick u = Some (loadExample u)) as Hd
    by (cbn [dispatch]; by rewrite Hload).
  assert (ui_inv (loadExample u)) as Hinv1 by (apply fresh_inv; [exact Hinv|apply example_rows_shape]).
  destruct (solve_click_run (loadExample u) example_rows Hinv1 Hload (rows_of_fresh _ _))
    as (g & ok & s & u' & Hg & _ & Hs & Hrun & Hl & _ & Hrows' & Ha).
  assert (to_grid (to_numberBoard example_rows) = Some example_grid) as Hex
    by (vm_compute; reflexivity).
  rewrite Hex in Hg. injection Hg as <-.
  assert (result_board (solveSudoku example_grid) = Some (true, example_solution)) as Hres
    by (vm_compute; reflexivity).
  rewrite Hs in Hres. cbn [result_board fmap option_fmap option_map] in Hres.
  injection Hres as -> Hb.
  exists u'. split_and!.
  - by rewrite (run_cons _ _ _ _ Hd).
  - by rewrite Hrows', Hb.
  - exact Ha.
  - exact Hl.
Qed.

Lemma example_click_solve_witness :
  reachable initial_ui ∧ isLoading initial_ui = false ∧
  ∃ u', run [ExampleClick; SolveClick; TimerFires] initial_ui = Some u' ∧
    rows_of u' = Some (to_strings example_solution) ∧ alerts u' = alerts initial_ui ∧
    isLoading u' = false.
Proof.
  assert (reachable initial_ui) as H1 by (exists []; reflexivity).
  assert (isLoading initial_ui = false) as H2 by reflexivity.
  exact (conj H1 (conj H2 (example_click_solve initial_ui H1 H2))).
Defined.

(** * The solver *)

(** ** X12: [solveSudoku] reports failure only for a grid that has no
    valid completion. *)
Theorem solve_false_no_completion (g : grid) (s : St) :
  solveSudoku g = Some (false, s) → ∀ h, ¬ completion g h.
Proof. intros Hs h Hh. exact (solve_fuel_complete _ _ _ h Hs Hh). Qed.

Lemma solve_false_no_completion_witness :
  solveSudoku dead_end = Some (false, mkSt dead_end []) ∧ ∀ h, ¬ completion dead_end h.
Proof.
  assert (solveSudoku dead_end = Some (false, mkSt dead_end [])) as Hs by (vm_compute; reflexivity).
  exact (conj Hs (solve_false_no_completion dead_end _ Hs)).
Defined.

(** ** X13: on a well-formed grid whose givens do not conflict,
    [solveSudoku] succeeds exactly when the grid has a valid completion. *)
Theorem solve_true_iff_completion (g : grid) :
  wf g → consistent g →
  ((∃ s, solveSudoku g = Some (true, s)) ↔ ∃ h, completion g h).
Proof.
  intros Hwf Hcons. split.
  - intros [s Hs]. exists (board s).
    destruct (solve_result_facts g true s Hwf Hs) as (Hwf' & Hk & Htrue & _).
    destruct (Htrue eq_refl) as [Hnz _].
    unfold solveSudoku in Hs.
    destruct (solve_fuel_preserves wf_consistent wf_consistent_place
                (S (count_zeros g)) (mkSt g []) true s (conj Hwf Hcons) Hs) as [[_ Hc] _].
    by split_and!.
  - intros [h Hh]. destruct (solveSudoku_some g) as [[ok s] Hs].
    destruct ok; [by exists s|].
    destruct (solve_result_facts g false s Hwf Hs) as (_ & _ & _ & Hfalse).
    by destruct (proj2 (Hfalse eq_refl) h).
Qed.

Lemma solve_true_iff_completion_witness :
  wf near_solution ∧ consistent near_solution ∧
  ((∃ s, solveSudoku near_solution = Some (true, s)) ↔ ∃ h, completion near_solution h).
Proof.
  assert (wf near_solution) as Hwf by by_eval.
  assert (consistent near_solution) as Hcons by (apply consistentb_sound; vm_compute; reflexivity).
  exact (conj Hwf (conj Hcons (solve_true_iff_completion near_solution Hwf Hcons))).
Defined.
